(** * Tic Tac Toe front end: the game state of [App.js]

    A shallow embedding of the game logic of
    [tic_tac_toe_frontend/src/App.js]: the board array, the turn flag, the
    session scores, the click and reset handlers, the derived winner, draw
    flag and status message, and the score effect that React runs when the
    derived winner changes. *)

From Stdlib Require Import ZArith NArith Lia.
From stdpp Require Import base option list gmap strings pretty.

Local Open Scope Z_scope.

(** ** Values held by the board *)

(** The two strings ['X'] and ['O']. *)
Inductive Mark : Type := X | O.

#[global] Instance Mark_eq_dec : EqDecision Mark.
Proof. solve_decision. Defined.

(** What a square holds: [null] (here [None]) or a mark. *)
Definition Cell : Type := option Mark.

Definition null : Cell := None.

(** What reading a property gives: [undefined] (here [None]) when the array
    has no such property, the stored cell otherwise. *)
Definition Value : Type := option Cell.

(** JavaScript truthiness of a read: [undefined] and [null] are falsy, the
    non-empty strings ['X'] and ['O'] are truthy. *)
Definition truthy (v : Value) : bool :=
  match v with
  | Some (Some _) => true
  | _ => false
  end.

(** [===] on reads: [undefined], [null], ['X'] and ['O'] are four distinct
    values. *)
Definition strict_eq (v w : Value) : bool := bool_decide (v = w).

(** ** JavaScript arrays, as far as [App.js] uses them

    An array is an object with a [length] and properties; the properties
    that matter here have integer names.  A name [k] with
    [0 <= k < 2^32 - 1] is an array index (an element), any other integer is
    an ordinary property that [length], [slice] and [every] do not see. *)
Module JsArray.

Record t : Type := mk { length : Z; props : gmap Z Cell }.

Definition is_array_index (k : Z) : bool := (0 <=? k) && (k <? 2 ^ 32 - 1).

(** [arr[k]] *)
Definition get (arr : t) (k : Z) : Value := props arr !! k.

(** [arr[k] = v]: writing an element at or past the end grows the array to
    [k + 1], leaving holes in between. *)
Definition set (arr : t) (k : Z) (v : Cell) : t :=
  {| length := if is_array_index k && (length arr <=? k)
               then k + 1 else length arr;
     props := <[k := v]> (props arr) |}.

(** [Array(n)]: [n] holes. *)
Definition Array (n : Z) : t := {| length := n; props := ∅ |}.

(** [arr.fill(v)]: every index below [length] gets [v]. *)
Definition fill (arr : t) (v : Cell) : t :=
  {| length := length arr;
     props := foldr (fun k m => <[k := v]> m) (props arr)
                    (seqZ 0 (length arr)) |}.

(** [arr.slice()]: a new array of the same length with the elements of
    [arr]; holes stay holes, properties that are not elements are not
    copied. *)
Definition slice (arr : t) : t :=
  {| length := length arr;
     props := filter (fun kv => 0 <= kv.1 < length arr) (props arr) |}.

(** [arr.every(p)]: [p] on every element below [length], skipping holes. *)
Definition every (p : Cell -> bool) (arr : t) : bool :=
  forallb (fun k => match get arr k with
                    | Some v => p v
                    | None => true
                    end)
          (seqZ 0 (length arr)).

End JsArray.

Abbreviation Board := JsArray.t.

(** ** The constants and the derived values *)

(** [WIN_LINES] *)
Definition WIN_LINES : list (Z * Z * Z) :=
  [ (0, 1, 2); (3, 4, 5); (6, 7, 8);
    (0, 3, 6); (1, 4, 7); (2, 5, 8);
    (0, 4, 8); (2, 4, 6) ].

(** The object returned by the first [useMemo]. *)
Record WinInfo : Type := { winner : option Mark; line : list Z }.

(** The test of the [if] in the loop, with the mark of [board[a]] when it
    passes: [board[a] && board[a] === board[b] && board[a] === board[c]]. *)
Definition line_mark (board : Board) (l : Z * Z * Z) : option Mark :=
  let '(a, b, c) := l in
  match JsArray.get board a with
  | Some (Some m) =>
      if strict_eq (JsArray.get board a) (JsArray.get board b)
         && strict_eq (JsArray.get board a) (JsArray.get board c)
      then Some m else None
  | _ => None
  end.

(** [for (const [a, b, c] of lines) { if (...) return {...} } return {...}] *)
Fixpoint scan_lines (lines : list (Z * Z * Z)) (board : Board) : WinInfo :=
  match lines with
  | [] => {| winner := None; line := [] |}
  | (a, b, c) :: rest =>
      match line_mark board (a, b, c) with
      | Some m => {| winner := Some m; line := [a; b; c] |}
      | None => scan_lines rest board
      end
  end.

Definition computeWinner (board : Board) : WinInfo := scan_lines WIN_LINES board.

Definition isBoardFull (board : Board) : bool :=
  JsArray.every (fun cell => bool_decide (cell ≠ null)) board.

Definition isDraw (board : Board) : bool :=
  negb (bool_decide (is_Some (winner (computeWinner board)))) && isBoardFull board.

(** The outcome the specification calls [computeOutcome()]: the three cases
    that [winner], [line] and [isDraw] distinguish. *)
Inductive GameOutcome : Type :=
  | InProgress
  | Won (mark : Mark) (winLine : list Z)
  | Draw.

#[global] Instance GameOutcome_eq_dec : EqDecision GameOutcome.
Proof. solve_decision. Defined.

Definition computeOutcome (board : Board) : GameOutcome :=
  match winner (computeWinner board) with
  | Some m => Won m (line (computeWinner board))
  | None => if isDraw board then Draw else InProgress
  end.

Definition mark_string (m : Mark) : string :=
  match m with X => "X" | O => "O" end.

(** [xIsNext ? 'X' : 'O'] *)
Definition turn_mark (xIsNext : bool) : Mark := if xIsNext then X else O.

(** [statusMessage] *)
Definition statusMessage (board : Board) (xIsNext : bool) : string :=
  match winner (computeWinner board) with
  | Some w => "Winner: " +:+ mark_string w
  | None =>
      if isDraw board then "It's a draw"
      else "Turn: " +:+ mark_string (turn_mark xIsNext)
  end.

(** ** The component state *)

(** The [scores] object [{ X: _, O: _ }].  The counters are JavaScript
    numbers that only ever hold win counts, on which [+ 1] is the exact
    successor (for every count below [2^53]). *)
Record Scores : Type := { score_X : N; score_O : N }.

(** [s[m]] *)
Definition score (s : Scores) (m : Mark) : N :=
  match m with X => score_X s | O => score_O s end.

(** [{ ...s, [m]: s[m] + 1 }] *)
Definition bump (s : Scores) (m : Mark) : Scores :=
  match m with
  | X => {| score_X := (score s X + 1)%N; score_O := score_O s |}
  | O => {| score_X := score_X s; score_O := (score s O + 1)%N |}
  end.

(** The three [useState] cells of the game. *)
Record State : Type := { board : Board; xIsNext : bool; scores : Scores }.

(** The component between two events: its state, and the dependency
    [[winner]] that the score effect recorded when it last ran. *)
Record Component : Type := { state : State; winnerDep : option Mark }.

(** [Array(9).fill(null)] *)
Definition emptyBoard : Board := JsArray.fill (JsArray.Array 9) null.

Definition initialState : State :=
  {| board := emptyBoard; xIsNext := true;
     scores := {| score_X := 0; score_O := 0 |} |}.

(** ** The handlers *)

(** The guard of [handleSquareClick]: [board[index] || winner]. *)
Definition rejects (st : State) (index : Z) : bool :=
  truthy (JsArray.get (board st) index)
  || bool_decide (is_Some (winner (computeWinner (board st)))).

(** [handleSquareClick] *)
Definition handleSquareClick (index : Z) (st : State) : State :=
  if rejects st index then st
  else
    let nextBoard :=
      JsArray.set (JsArray.slice (board st)) index (Some (turn_mark (xIsNext st))) in
    {| board := nextBoard; xIsNext := negb (xIsNext st); scores := scores st |}.

(** [resetBoard] *)
Definition resetBoard (st : State) : State :=
  {| board := emptyBoard; xIsNext := true; scores := scores st |}.

(** [resetAll] *)
Definition resetAll (st : State) : State :=
  let st' := resetBoard st in
  {| board := board st'; xIsNext := xIsNext st';
     scores := {| score_X := 0; score_O := 0 |} |}.

(** The body of the score effect, run with the [winner] of the render that
    scheduled it. *)
Definition scoreEffect (w : option Mark) (st : State) : State :=
  match w with
  | Some m =>
      {| board := board st; xIsNext := xIsNext st; scores := bump (scores st) m |}
  | None => st
  end.

(** A render followed by its effects: the score effect runs only when
    [winner] differs from the dependency it recorded; the render caused by
    its own [setScores] sees the same [winner] and runs nothing. *)
Definition commit (c : Component) : Component :=
  let w := winner (computeWinner (board (state c))) in
  if decide (w = winnerDep c) then c
  else {| state := scoreEffect w (state c); winnerDep := w |}.

(** The component after mounting: the first render has no winner. *)
Definition initial : Component :=
  {| state := initialState; winnerDep := None |}.

(** What the user can do. *)
Inductive Event : Type :=
  | Click (index : Z)
  | ResetGame
  | ResetAll.

Definition handle (e : Event) (st : State) : State :=
  match e with
  | Click index => handleSquareClick index st
  | ResetGame => resetBoard st
  | ResetAll => resetAll st
  end.

(** Whether the handler reaches a state setter: a click that the guard
    rejects returns before any, the resets always set. *)
Definition updates (e : Event) (st : State) : bool :=
  match e with
  | Click index => negb (rejects st index)
  | _ => true
  end.

(** One event: the handler's state updates, then the render they cause;
    without an update nothing is rendered. *)
Definition dispatch (c : Component) (e : Event) : Component :=
  if updates e (state c)
  then commit {| state := handle e (state c); winnerDep := winnerDep c |}
  else c.

Definition run (c : Component) (es : list Event) : Component :=
  foldl dispatch c es.

Definition reachable (c : Component) : Prop := ∃ es, run initial es = c.

(** ** Predicates used in the statements *)

(** The three squares of a line all hold [m]. *)
Definition line_full (b : Board) (l : Z * Z * Z) (m : Mark) : Prop :=
  JsArray.get b l.1.1 = Some (Some m)
  ∧ JsArray.get b l.1.2 = Some (Some m)
  ∧ JsArray.get b l.2 = Some (Some m).

(** The [line] array that the loop returns for a triple. *)
Definition line_list (l : Z * Z * Z) : list Z := [l.1.1; l.1.2; l.2].

(** The boards that the handlers produce: at least nine elements, the nine
    squares all defined, and no [null] past them. *)
Record wf_board (b : Board) : Prop := {
  wf_length : 9 <= JsArray.length b;
  wf_squares : ∀ k, 0 <= k < 9 → is_Some (JsArray.get b k);
  wf_extra : ∀ k, 9 <= k < JsArray.length b → JsArray.get b k ≠ Some null
}.

(** The component is between two events: the score effect has seen the
    current [winner]. *)
Definition rendered (c : Component) : Prop :=
  winnerDep c = winner (computeWinner (board (state c))).

(** Every complete line carries the mark that [winner] reports. *)
Definition one_winner (b : Board) : Prop :=
  ∀ l m, l ∈ WIN_LINES → line_mark b l = Some m →
         winner (computeWinner b) = Some m.

(** Number of occupied squares among the nine. *)
Definition occupied (b : Board) : nat :=
  base.length (filter (fun k => truthy (JsArray.get b k) = true) (seqZ 0 9)).

(** Number of clicks of a list that pass the guard, played in order. *)
Fixpoint accepted_count (c : Component) (l : list Z) : nat :=
  match l with
  | [] => 0
  | index :: rest =>
      ((if rejects (state c) index then 0 else 1)
       + accepted_count (dispatch c (Click index)) rest)%nat
  end.

Definition other (m : Mark) : Mark := match m with X => O | O => X end.

(** The events that click one of the nine squares, and the resets. *)
Definition in_squares (e : Event) : Prop :=
  match e with
  | Click index => 0 <= index <= 8
  | _ => True
  end.

(** A game in which the ninth move completes the top row and the left
    column at once. *)
Definition double_line_game : list Z := [1; 4; 2; 5; 3; 7; 6; 8; 0].

(** A game that fills the board without completing a line. *)
Definition drawn_game : list Z := [0; 1; 2; 4; 3; 5; 7; 6; 8].

(** ** The rendered page *)

(** Number of squares among the nine that hold [m]. *)
Definition countMark (b : Board) (m : Mark) : nat :=
  base.length
    (filter (fun k => strict_eq (JsArray.get b k) (Some (Some m)) = true)
            (seqZ 0 9)).

(** [`${v}`] for a value read from the board. *)
Definition value_string (v : Value) : string :=
  match v with
  | Some (Some m) => mark_string m
  | Some None => "null"
  | None => "undefined"
  end.

(** What React shows for [{value}]: nothing for [null] and [undefined]. *)
Definition shown (v : Value) : option Mark :=
  match v with
  | Some (Some m) => Some m
  | _ => None
  end.

(** The button that [renderSquare] returns: its key, class, click handler,
    accessible name and content. *)
Record SquareView : Type := {
  sq_key : Z;
  sq_className : string;
  sq_onClick : Event;
  sq_ariaLabel : string;
  sq_children : Value
}.

(** [renderSquare], in a render whose board is [board] and whose winning
    line is [line].  [`${index + 1}`] prints an integer in decimal. *)
Definition renderSquare (board : Board) (line : list Z) (index : Z) : SquareView :=
  let value := JsArray.get board index in
  let isWinning := bool_decide (index ∈ line) in
  {| sq_key := index;
     sq_className := "square " +:+ (if isWinning then "square-winning" else "");
     sq_onClick := Click index;
     sq_ariaLabel :=
       "Square " +:+ pretty (index + 1) +:+ " "
       +:+ (if truthy value then "with " +:+ value_string value else "empty");
     sq_children := value |}.

(** [Array.from({ length: 9 }, (_, i) => renderSquare(i))] *)
Definition renderBoard (board : Board) : list SquareView :=
  renderSquare board (line (computeWinner board)) <$> seqZ 0 9.

(** The handlers that the rendered game can call: the nine squares, then
    the two reset buttons. *)
Definition page_events (board : Board) : list Event :=
  (sq_onClick <$> renderBoard board) ++ [ResetGame; ResetAll].

(** The components that a user of the page can reach: every event comes
    from a handler of the page as rendered at that moment. *)
Inductive page_reachable : Component → Prop :=
  | page_initial : page_reachable initial
  | page_step c e :
      page_reachable c → e ∈ page_events (board (state c)) →
      page_reachable (dispatch c e).

(** The board has its nine elements and nothing else. *)
Definition nine_squares (b : Board) : Prop :=
  JsArray.length b = 9 ∧ ∀ k, is_Some (JsArray.get b k) ↔ 0 <= k < 9.

(** X and O alternate on the squares, X first. *)
Definition balanced (st : State) : Prop :=
  countMark (board st) X
  = (countMark (board st) O + if xIsNext st then 0 else 1)%nat.

(** The component with [dx] and [dy] added to the scores of X and O. *)
Definition shift_scores (dx dy : N) (c : Component) : Component :=
  {| state :=
       {| board := board (state c); xIsNext := xIsNext (state c);
          scores := {| score_X := (score_X (scores (state c)) + dx)%N;
                       score_O := (score_O (scores (state c)) + dy)%N |} |};
     winnerDep := winnerDep c |}.

(** ** The theme *)

(** The updater of [toggleTheme]: [prev === 'light' ? 'dark' : 'light']. *)
Definition toggleTheme (prev : string) : string :=
  if decide (prev = "light") then "dark" else "light".

(** The whole component: the game, the [theme] state, the dependency
    [[theme]] recorded by the first effect, and the [data-theme] attribute
    of the document element that the effect writes. *)
Record Page : Type := {
  app : Component;
  theme : string;
  themeDep : string;
  dataTheme : string
}.

(** The first effect, after a render: it runs when [theme] changed. *)
Definition themeEffect (p : Page) : Page :=
  if decide (theme p = themeDep p) then p
  else {| app := app p; theme := theme p;
          themeDep := theme p; dataTheme := theme p |}.

Inductive PageEvent : Type :=
  | Game (e : Event)
  | ToggleTheme.

(** One event on the page.  A render runs both effects; a game handler that
    sets no state renders nothing, the theme updater always changes
    [theme]. *)
Definition page_dispatch (p : Page) (ev : PageEvent) : Page :=
  match ev with
  | Game e =>
      if updates e (state (app p))
      then themeEffect {| app := dispatch (app p) e; theme := theme p;
                          themeDep := themeDep p; dataTheme := dataTheme p |}
      else p
  | ToggleTheme =>
      themeEffect {| app := commit (app p); theme := toggleTheme (theme p);
                     themeDep := themeDep p; dataTheme := dataTheme p |}
  end.

Definition page_run (p : Page) (evs : list PageEvent) : Page :=
  foldl page_dispatch p evs.

(** The page after mounting: [useState('light')], and the first effect has
    written the attribute. *)
Definition mounted : Page :=
  {| app := initial; theme := "light"; themeDep := "light";
     dataTheme := "light" |}.

Fixpoint toggle_count (evs : list PageEvent) : nat :=
  match evs with
  | [] => 0
  | ToggleTheme :: rest => S (toggle_count rest)
  | Game _ :: rest => toggle_count rest
  end.

Fixpoint game_events (evs : list PageEvent) : list Event :=
  match evs with
  | [] => []
  | Game e :: rest => e :: game_events rest
  | ToggleTheme :: rest => game_events rest
  end.

(** What the page keeps true between two events. *)
Record page_inv (p : Page) : Prop := {
  inv_dep : themeDep p = theme p;
  inv_attr : dataTheme p = theme p;
  inv_theme : theme p = "light" ∨ theme p = "dark";
  inv_app : rendered (app p)
}.

(** ** Proof steps *)

(** One direction of one case: the two sides either name different texts or
    different outcomes, or agree. *)
Ltac status_case :=
  let H := fresh in
  intros H;
  lazymatch type of H with
  | _ = _ => first [ discriminate H | eauto ]
  | ∃ _, _ =>
      let ln := fresh in destruct H as [ln H]; first [ discriminate H | done ]
  | _ ∧ _ =>
      let H' := fresh in destruct H as [H H']; first [ discriminate | done ]
  end.

(** Every element of a concrete list of events or indices is in range. *)
Ltac all_in_range :=
  repeat (apply List.Forall_cons; [simpl; first [ lia | exact I ]|]);
  apply List.Forall_nil.

(** ** Arrays *)

Section array_lemmas.
Implicit Types (arr : JsArray.t) (k j : Z) (v : Cell).

Lemma get_set arr k v j :
  JsArray.get (JsArray.set arr k v) j
  = if decide (k = j) then Some v else JsArray.get arr j.
Proof. unfold JsArray.get, JsArray.set; simpl. apply lookup_insert. Qed.

Lemma get_slice arr j :
  JsArray.get (JsArray.slice arr) j
  = if decide (0 <= j < JsArray.length arr) then JsArray.get arr j else None.
Proof.
  unfold JsArray.get, JsArray.slice; simpl.
  destruct (JsArray.props arr !! j) as [v|] eqn:E.
  - case_decide as H.
    + apply map_lookup_filter_Some; auto.
    + apply map_lookup_filter_None. right. intros v' Hv' Hr. simpl in Hr. lia.
  - assert (filter (λ kv : Z * Cell, 0 <= kv.1 < JsArray.length arr)
              (JsArray.props arr) !! j = None) as ->.
    { apply map_lookup_filter_None. by left. }
    by case_decide.
Qed.

Lemma length_slice arr : JsArray.length (JsArray.slice arr) = JsArray.length arr.
Proof. reflexivity. Qed.

Lemma length_set_ge arr k v :
  JsArray.length arr <= JsArray.length (JsArray.set arr k v).
Proof.
  unfold JsArray.set, JsArray.is_array_index; simpl.
  destruct (_ && _) eqn:E; [|lia].
  apply andb_true_iff in E as [_ E]. lia.
Qed.

Lemma length_set_in arr k v :
  k < JsArray.length arr → JsArray.length (JsArray.set arr k v) = JsArray.length arr.
Proof.
  intros H. unfold JsArray.set; simpl.
  destruct (JsArray.length arr <=? k) eqn:E; [lia|].
  by rewrite andb_false_r.
Qed.

Lemma lookup_foldr_insert (m : gmap Z Cell) v (l : list Z) j :
  foldr (λ k m, <[k := v]> m) m l !! j
  = if decide (j ∈ l) then Some v else m !! j.
Proof.
  induction l as [|k l IH].
  - destruct (decide (j ∈ [])) as [H|H]; [by apply elem_of_nil in H | done].
  - cbn [foldr]. rewrite lookup_insert, IH.
    destruct (decide (k = j)) as [->|Hne];
      destruct (decide (j ∈ l)) as [Hin|Hin];
      destruct (decide (j ∈ _ :: l)) as [Hc|Hc]; try done.
    + exfalso. apply Hc. by left.
    + exfalso. apply Hc. by left.
    + exfalso. apply Hc. by right.
    + exfalso. apply elem_of_cons in Hc as [?|?]; congruence.
Qed.

Lemma get_fill arr v j :
  JsArray.get (JsArray.fill arr v) j
  = if decide (0 <= j < JsArray.length arr) then Some v else JsArray.get arr j.
Proof.
  unfold JsArray.get, JsArray.fill; simpl.
  rewrite lookup_foldr_insert.
  destruct (decide (j ∈ seqZ 0 (JsArray.length arr))) as [H|H];
    rewrite elem_of_seqZ in H; case_decide; try done; lia.
Qed.

Lemma get_emptyBoard j :
  JsArray.get emptyBoard j = if decide (0 <= j < 9) then Some null else None.
Proof. unfold emptyBoard. rewrite get_fill. simpl. by case_decide. Qed.

Lemma every_spec (p : Cell → bool) arr :
  JsArray.every p arr = true
  ↔ ∀ k v, 0 <= k < JsArray.length arr → JsArray.get arr k = Some v → p v = true.
Proof.
  unfold JsArray.every. rewrite forallb_forall. split.
  - intros H k v Hk Hv. specialize (H k).
    rewrite Hv in H. apply H. apply list_elem_of_In, elem_of_seqZ. lia.
  - intros H k Hk%list_elem_of_In%elem_of_seqZ.
    destruct (JsArray.get arr k) as [v|] eqn:E; [|done].
    apply (H k); [lia | done].
Qed.

End array_lemmas.

(** ** The winner loop *)

Section winner_lemmas.
Implicit Types (b : Board) (l : Z * Z * Z) (m : Mark).

Lemma line_mark_spec b l m : line_mark b l = Some m ↔ line_full b l m.
Proof.
  destruct l as [[x y] z]. unfold line_mark, line_full, strict_eq; simpl.
  destruct (JsArray.get b x) as [[m'|]|] eqn:Ex.
  - split.
    + destruct (bool_decide _) eqn:Ey; [|done].
      destruct (bool_decide (_ = JsArray.get b z)) eqn:Ez; [|done].
      apply bool_decide_eq_true in Ey, Ez. simpl. intros [= ->].
      by rewrite <-Ey, <-Ez.
    + intros (Hx & -> & ->). rewrite Hx.
      rewrite bool_decide_eq_true_2 by done. simpl. congruence.
  - split; [done | by intros (? & _)].
  - split; [done | by intros (? & _)].
Qed.

Lemma line_mark_None b l : line_mark b l = None ↔ ∀ m, ¬ line_full b l m.
Proof.
  split.
  - intros H m Hm%line_mark_spec. congruence.
  - intros H. destruct (line_mark b l) as [m|] eqn:E; [|done].
    by apply line_mark_spec, H in E.
Qed.

Lemma scan_lines_cons b l rest :
  scan_lines (l :: rest) b
  = match line_mark b l with
    | Some m => {| winner := Some m; line := line_list l |}
    | None => scan_lines rest b
    end.
Proof. by destruct l as [[x y] z]. Qed.

Lemma scan_lines_None b lines :
  winner (scan_lines lines b) = None ↔ ∀ l, l ∈ lines → line_mark b l = None.
Proof.
  induction lines as [|l rest IH].
  - split; [|done]. intros _ l H. by apply elem_of_nil in H.
  - rewrite scan_lines_cons. destruct (line_mark b l) as [m|] eqn:E; simpl.
    + split; [done|]. intros H. rewrite H in E; [done | left].
    + rewrite IH. split.
      * intros H l' [->|?]%elem_of_cons; auto.
      * intros H l' Hl'. apply H. by right.
Qed.

(** The loop returns the first line that passes the test. *)
Lemma scan_lines_first b lines (k : nat) l m :
  lines !! k = Some l → line_mark b l = Some m →
  ∃ (i : nat) l' m',
    (i <= k)%nat ∧ lines !! i = Some l' ∧ line_mark b l' = Some m'
    ∧ scan_lines lines b = {| winner := Some m'; line := line_list l' |}
    ∧ ∀ (j : nat) l'', (j < i)%nat → lines !! j = Some l'' → line_mark b l'' = None.
Proof.
  revert k. induction lines as [|l0 rest IH]; intros k Hk Hm; [done|].
  rewrite scan_lines_cons.
  destruct (line_mark b l0) as [m0|] eqn:E0.
  - exists 0%nat, l0, m0. repeat split; auto with lia.
  - destruct k as [|k]; [simpl in Hk; congruence|].
    destruct (IH k Hk Hm) as (i & l' & m' & Hi & Hl' & Hm' & Hs & Hmin).
    exists (S i), l', m'. repeat split; auto with lia.
    intros [|j] l'' Hj Hl''; simpl in Hl''; [congruence|].
    apply (Hmin j); [lia | done].
Qed.

Lemma scan_lines_Some b lines m :
  winner (scan_lines lines b) = Some m →
  ∃ (i : nat) l,
    lines !! i = Some l ∧ line_mark b l = Some m
    ∧ line (scan_lines lines b) = line_list l
    ∧ ∀ (j : nat) l', (j < i)%nat → lines !! j = Some l' → line_mark b l' = None.
Proof.
  induction lines as [|l0 rest IH]; [done|].
  rewrite scan_lines_cons.
  destruct (line_mark b l0) as [m0|] eqn:E0; simpl.
  - intros [= ->]. exists 0%nat, l0. repeat split; auto with lia.
  - intros (i & l & Hl & Hm & Hline & Hmin)%IH.
    exists (S i), l. repeat split; auto.
    intros [|j] l' Hj Hl'; simpl in Hl'; [congruence|].
    apply (Hmin j); [lia | done].
Qed.

Lemma win_lines_range l :
  l ∈ WIN_LINES → 0 <= l.1.1 < 9 ∧ 0 <= l.1.2 < 9 ∧ 0 <= l.2 < 9.
Proof.
  unfold WIN_LINES. rewrite !elem_of_cons, elem_of_nil.
  intros H. repeat (destruct H as [->|H]; [simpl; lia|]). done.
Qed.

(** The test of a line only reads the nine squares. *)
Lemma line_mark_ext b b' l :
  (∀ k, 0 <= k < 9 → JsArray.get b' k = JsArray.get b k) →
  l ∈ WIN_LINES → line_mark b' l = line_mark b l.
Proof.
  intros Hext (H1 & H2 & H3)%win_lines_range. destruct l as [[x y] z].
  unfold line_mark. simpl in *. by rewrite !Hext.
Qed.

Lemma winner_ext b b' :
  (∀ k, 0 <= k < 9 → JsArray.get b' k = JsArray.get b k) →
  computeWinner b' = computeWinner b.
Proof.
  intros Hext. unfold computeWinner.
  assert (Forall (λ l, l ∈ WIN_LINES) WIN_LINES) as Hall
    by (apply Forall_forall; auto).
  induction Hall as [|l rest Hl _ IH]; [done|].
  rewrite !scan_lines_cons, (line_mark_ext b b' l Hext Hl).
  destruct (line_mark b l); [done | apply IH].
Qed.

End winner_lemmas.

(** ** The handlers and the render *)

Section handler_lemmas.
Implicit Types (st : State) (c : Component) (index k : Z) (e : Event).

Lemma rejects_false st index :
  rejects st index = false
  ↔ truthy (JsArray.get (board st) index) = false
    ∧ winner (computeWinner (board st)) = None.
Proof.
  unfold rejects. rewrite orb_false_iff, bool_decide_eq_false.
  rewrite <-eq_None_not_Some. done.
Qed.

Lemma click_rejected st index :
  rejects st index = true → handleSquareClick index st = st.
Proof. unfold handleSquareClick. by intros ->. Qed.

Lemma click_accepted st index :
  rejects st index = false →
  handleSquareClick index st
  = {| board := JsArray.set (JsArray.slice (board st)) index
                  (Some (turn_mark (xIsNext st)));
       xIsNext := negb (xIsNext st);
       scores := scores st |}.
Proof. unfold handleSquareClick. by intros ->. Qed.

Lemma get_click st index k :
  rejects st index = false →
  JsArray.get (board (handleSquareClick index st)) k
  = if decide (index = k) then Some (Some (turn_mark (xIsNext st)))
    else if decide (0 <= k < JsArray.length (board st))
         then JsArray.get (board st) k else None.
Proof.
  intros H. rewrite (click_accepted _ _ H). cbn [board].
  by rewrite get_set, get_slice.
Qed.

(** An accepted click leaves the other eight squares as they were. *)
Lemma get_click_other st index k :
  9 <= JsArray.length (board st) → 0 <= k < 9 → index ≠ k →
  JsArray.get (board (handleSquareClick index st)) k = JsArray.get (board st) k.
Proof.
  intros Hlen Hk Hne. destruct (rejects st index) eqn:E.
  - by rewrite click_rejected.
  - rewrite get_click by done. rewrite decide_False by done.
    rewrite decide_True by lia. done.
Qed.

Lemma length_click st index :
  JsArray.length (board st) <= JsArray.length (board (handleSquareClick index st)).
Proof.
  destruct (rejects st index) eqn:E.
  - rewrite click_rejected by done. lia.
  - rewrite click_accepted by done. cbn [board].
    etrans; [|apply length_set_ge]. by rewrite length_slice.
Qed.

Lemma length_click_in st index :
  index < JsArray.length (board st) →
  JsArray.length (board (handleSquareClick index st)) = JsArray.length (board st).
Proof.
  intros Hi. destruct (rejects st index) eqn:E.
  - by rewrite click_rejected.
  - rewrite click_accepted by done. cbn [board].
    rewrite length_set_in; by rewrite length_slice.
Qed.

Lemma commit_board c : board (state (commit c)) = board (state c).
Proof.
  unfold commit. case_decide; [done|]. simpl.
  by destruct (winner _).
Qed.

Lemma commit_xIsNext c : xIsNext (state (commit c)) = xIsNext (state c).
Proof.
  unfold commit. case_decide; [done|]. simpl.
  by destruct (winner _).
Qed.

Lemma commit_rendered c : rendered (commit c).
Proof.
  unfold rendered. rewrite commit_board.
  unfold commit. by case_decide.
Qed.

Lemma commit_id c : rendered c → commit c = c.
Proof. unfold rendered, commit. intros ->. by rewrite decide_True. Qed.

Lemma handle_no_update e st : updates e st = false → handle e st = st.
Proof.
  destruct e as [index| |]; simpl; [|done..].
  intros H%negb_false_iff. by apply click_rejected.
Qed.

Lemma dispatch_board c e : board (state (dispatch c e)) = board (handle e (state c)).
Proof.
  unfold dispatch. destruct (updates e (state c)) eqn:E.
  - by rewrite commit_board.
  - by rewrite handle_no_update.
Qed.

Lemma dispatch_xIsNext c e :
  xIsNext (state (dispatch c e)) = xIsNext (handle e (state c)).
Proof.
  unfold dispatch. destruct (updates e (state c)) eqn:E.
  - by rewrite commit_xIsNext.
  - by rewrite handle_no_update.
Qed.

Lemma dispatch_rendered c e : rendered c → rendered (dispatch c e).
Proof.
  intros Hr. unfold dispatch. destruct (updates e (state c)); [|done].
  apply commit_rendered.
Qed.

(** A click that the guard rejects changes nothing at all. *)
Lemma dispatch_rejected c index :
  rejects (state c) index = true → dispatch c (Click index) = c.
Proof. intros Hrej. unfold dispatch. simpl. by rewrite Hrej. Qed.

Lemma dispatch_accepted c index :
  rejects (state c) index = false →
  dispatch c (Click index)
  = commit {| state := handleSquareClick index (state c);
              winnerDep := winnerDep c |}.
Proof. intros Hacc. unfold dispatch. simpl. by rewrite Hacc. Qed.

Lemma run_snoc c es e : run c (es ++ [e]) = dispatch (run c es) e.
Proof. unfold run. by rewrite foldl_app. Qed.

Lemma wf_emptyBoard : wf_board emptyBoard.
Proof.
  split.
  - by compute.
  - intros k Hk. rewrite get_emptyBoard, decide_True by done. eauto.
  - intros k Hk. change (JsArray.length emptyBoard) with 9 in Hk. lia.
Qed.

Lemma wf_click st index :
  wf_board (board st) → wf_board (board (handleSquareClick index st)).
Proof.
  intros [Hlen Hsq Hex]. destruct (rejects st index) eqn:E.
  { by rewrite click_rejected. }
  split.
  - pose proof (length_click st index). lia.
  - intros k Hk. rewrite get_click by done.
    case_decide; [eauto|]. rewrite decide_True by lia. auto.
  - intros k Hk. rewrite get_click by done.
    case_decide; [done|]. case_decide; [|done]. apply Hex. lia.
Qed.

Lemma wf_handle st e : wf_board (board st) → wf_board (board (handle e st)).
Proof.
  destruct e; simpl; auto using wf_click, wf_emptyBoard.
Qed.

Lemma winner_emptyBoard : computeWinner emptyBoard = {| winner := None; line := [] |}.
Proof. by vm_compute. Qed.

Lemma one_winner_empty : one_winner emptyBoard.
Proof.
  intros l m Hl Hm. exfalso.
  pose proof (proj1 (scan_lines_None emptyBoard WIN_LINES)) as H.
  rewrite H in Hm; [done | | done].
  fold (computeWinner emptyBoard). by rewrite winner_emptyBoard.
Qed.

(** After an accepted click every complete line goes through the clicked
    square, so it carries the mark just played. *)
Lemma full_after_click st index l m :
  9 <= JsArray.length (board st) → rejects st index = false →
  l ∈ WIN_LINES → line_mark (board (handleSquareClick index st)) l = Some m →
  m = turn_mark (xIsNext st).
Proof.
  intros Hlen Hacc Hl Hm.
  pose proof Hacc as [_ Hnone]%rejects_false.
  pose proof (win_lines_range l Hl) as (H1 & H2 & H3).
  pose proof Hm as (F1 & F2 & F3)%line_mark_spec.
  rewrite get_click in F1, F2, F3 by done.
  destruct (decide (index = l.1.1)); [congruence|].
  destruct (decide (index = l.1.2)); [congruence|].
  destruct (decide (index = l.2)); [congruence|].
  rewrite decide_True in F1 by lia.
  rewrite decide_True in F2 by lia.
  rewrite decide_True in F3 by lia.
  assert (line_mark (board st) l = Some m) as Hold by by apply line_mark_spec.
  unfold computeWinner in Hnone.
  rewrite (proj1 (scan_lines_None _ _) Hnone l Hl) in Hold. done.
Qed.

Lemma one_winner_click st index :
  9 <= JsArray.length (board st) → one_winner (board st) →
  one_winner (board (handleSquareClick index st)).
Proof.
  intros Hlen Hone. destruct (rejects st index) eqn:E.
  { by rewrite click_rejected. }
  intros l m Hl Hm.
  apply list_elem_of_lookup in Hl as Hk. destruct Hk as [k Hk].
  destruct (scan_lines_first _ _ _ _ _ Hk Hm) as (i & l' & m' & _ & Hl' & Hm' & Hs & _).
  unfold computeWinner. rewrite Hs. simpl. f_equal.
  rewrite (full_after_click st index l m); try done.
  apply (full_after_click st index l'); try done.
  apply list_elem_of_lookup. eauto.
Qed.

Lemma one_winner_handle st e :
  9 <= JsArray.length (board st) → one_winner (board st) →
  one_winner (board (handle e st)).
Proof.
  destruct e; simpl; auto using one_winner_click, one_winner_empty.
Qed.

(** What holds in every state that the events can produce. *)
Lemma reachable_inv c :
  reachable c →
  wf_board (board (state c)) ∧ rendered c ∧ one_winner (board (state c)).
Proof.
  intros [es <-]. induction es as [|e es IH] using rev_ind.
  - split; [apply wf_emptyBoard | split; [done | apply one_winner_empty]].
  - rewrite run_snoc. destruct IH as (Hwf & Hr & Hone).
    split; [|split].
    + rewrite dispatch_board. by apply wf_handle.
    + by apply dispatch_rendered.
    + rewrite dispatch_board. apply one_winner_handle; [apply Hwf | done].
Qed.

End handler_lemmas.

(** ** The component on concrete games *)

(** The first render shows "Turn: X", as [App.test.js] expects. *)
Example initial_status :
  statusMessage (board (state initial)) (xIsNext (state initial)) = "Turn: X".
Proof. reflexivity. Qed.

(** X on 0, 1, 2 against O on 3, 4: the top row wins and X scores once. *)
Example top_row_game :
  let c := run initial (Click <$> [0; 3; 1; 4; 2]) in
  computeOutcome (board (state c)) = Won X [0; 1; 2]
  ∧ statusMessage (board (state c)) (xIsNext (state c)) = "Winner: X"
  ∧ scores (state c) = {| score_X := 1; score_O := 0 |}.
Proof. by vm_compute. Qed.

(** The clicks 0, 1, 2, 3, 4, 5, 6, 8, 7: the seventh gives X the diagonal
    [2,4,6], and the last two are rejected. *)
Example diagonal_game :
  let c := run initial (Click <$> [0; 1; 2; 3; 4; 5; 6; 8; 7]) in
  computeOutcome (board (state c)) = Won X [2; 4; 6]
  ∧ accepted_count initial [0; 1; 2; 3; 4; 5; 6; 8; 7] = 7%nat.
Proof. by vm_compute. Qed.

(** A full board without a complete line. *)
Example drawn_game_status :
  let c := run initial (Click <$> drawn_game) in
  computeOutcome (board (state c)) = Draw
  ∧ statusMessage (board (state c)) (xIsNext (state c)) = "It's a draw".
Proof. by vm_compute. Qed.

(** A click with index -1 is accepted once: the mark becomes a property of
    the array that is not an element, the length stays nine, the turn
    flips; the same click is then rejected, and the next accepted click
    copies the elements only. *)
Example negative_index_game :
  let c1 := run initial [Click (-1)] in
  let c2 := dispatch c1 (Click 0) in
  JsArray.get (board (state c1)) (-1) = Some (Some X)
  ∧ JsArray.length (board (state c1)) = 9
  ∧ xIsNext (state c1) = false
  ∧ dispatch c1 (Click (-1)) = c1
  ∧ JsArray.get (board (state c2)) (-1) = None
  ∧ JsArray.get (board (state c2)) 0 = Some (Some O).
Proof. by vm_compute. Qed.

(** ** Winner derivation *)

(** C1, as stated, fails: the nine clicks of [double_line_game] are all
    accepted and leave X on the three squares of the column [0,3,6], yet the
    outcome is [Won X [0,1,2]], the row that comes first in [WIN_LINES], and
    not [Won X [0,3,6]]. *)
Lemma outcome_line_not_every_full_line :
  let c := run initial (Click <$> double_line_game) in
  accepted_count initial double_line_game = 9%nat
  ∧ (0, 3, 6) ∈ WIN_LINES
  ∧ line_full (board (state c)) (0, 3, 6) X
  ∧ computeOutcome (board (state c)) = Won X [0; 1; 2]
  ∧ computeOutcome (board (state c)) ≠ Won X (line_list (0, 3, 6)).
Proof.
  cbv zeta. split; [by vm_compute|]. split.
  { unfold WIN_LINES. rewrite !elem_of_cons. auto. }
  split; [by vm_compute|].
  assert (computeOutcome (board (state (run initial (Click <$> double_line_game))))
          = Won X [0; 1; 2]) as -> by by vm_compute.
  split; [done | discriminate].
Qed.

(** C1 (amended): [WIN_LINES] lists the rows, then the columns, then the
    diagonals, and for every board on which some line [l] of [WIN_LINES]
    holds one mark [m] on its three squares, the outcome is [Won m' l']
    where [l'] is the first line of [WIN_LINES] that holds one mark [m'] on
    its three squares.  It is [l] itself, with [m], when no line before [l]
    is complete; and on every board that the events can produce [m' = m]
    whichever complete line is reported. *)
Theorem computeOutcome_first_full_line c (k : nat) l m :
  let b := board (state c) in
  WIN_LINES !! k = Some l → line_full b l m →
  WIN_LINES = [ (0, 1, 2); (3, 4, 5); (6, 7, 8);
                (0, 3, 6); (1, 4, 7); (2, 5, 8);
                (0, 4, 8); (2, 4, 6) ]
  ∧ ∃ (i : nat) l' m',
      (i <= k)%nat ∧ WIN_LINES !! i = Some l'
      ∧ computeOutcome b = Won m' (line_list l')
      ∧ line_full b l' m'
      ∧ (∀ (j : nat) l'' m'', (j < i)%nat → WIN_LINES !! j = Some l'' →
                              ¬ line_full b l'' m'')
      ∧ ((∀ (j : nat) l'' m'', (j < k)%nat → WIN_LINES !! j = Some l'' →
                               ¬ line_full b l'' m'') →
         l' = l ∧ m' = m)
      ∧ (reachable c → m' = m).
Proof.
  intros b Hk Hfull. split; [done|].
  apply line_mark_spec in Hfull as Hm.
  destruct (scan_lines_first b _ _ _ _ Hk Hm)
    as (i & l' & m' & Hi & Hl' & Hm' & Hs & Hmin).
  exists i, l', m'. split; [done|]. split; [done|].
  assert (computeOutcome b = Won m' (line_list l')) as Hout.
  { unfold computeOutcome, computeWinner. by rewrite Hs. }
  split; [done|]. split; [by apply line_mark_spec|]. split; [|split].
  - intros j l'' m'' Hj Hl''. by apply line_mark_None, (Hmin j).
  - intros Hfirst. destruct (decide (i = k)) as [->|Hne].
    + assert (l' = l) as -> by congruence. split; [done | congruence].
    + exfalso. apply (Hfirst i l' m'); [lia | done | by apply line_mark_spec].
  - intros (_ & _ & Hone)%reachable_inv.
    assert (winner (computeWinner b) = Some m) as Hw.
    { apply (Hone l); [|done]. apply list_elem_of_lookup. eauto. }
    unfold computeWinner in Hw. rewrite Hs in Hw. simpl in Hw. congruence.
Qed.

Lemma computeOutcome_first_full_line_witness :
  let c := run initial (Click <$> double_line_game) in
  ∃ (i : nat) l' m',
      (i <= 3)%nat ∧ WIN_LINES !! i = Some l'
      ∧ computeOutcome (board (state c)) = Won m' (line_list l')
      ∧ line_full (board (state c)) l' m'
      ∧ (∀ (j : nat) l'' m'', (j < i)%nat → WIN_LINES !! j = Some l'' →
                              ¬ line_full (board (state c)) l'' m'')
      ∧ ((∀ (j : nat) l'' m'', (j < 3)%nat → WIN_LINES !! j = Some l'' →
                               ¬ line_full (board (state c)) l'' m'') →
         l' = (0, 3, 6) ∧ m' = X)
      ∧ (reachable c → m' = X).
Proof.
  cbv zeta.
  apply (computeOutcome_first_full_line
           (run initial (Click <$> double_line_game)) 3 (0, 3, 6) X).
  - reflexivity.
  - vm_compute. auto.
Defined.

(** ** Rejected clicks *)

(** C2: on a board of nine defined squares, a click on a square of [0,8]
    that is occupied, or a click on any of them once the outcome is not
    [InProgress], returns the component unchanged: same board, same turn,
    same scores, and no error (the handler just returns). *)
Theorem rejected_click_changes_nothing c index :
  wf_board (board (state c)) → 0 <= index <= 8 →
  (∃ m, JsArray.get (board (state c)) index = Some (Some m))
  ∨ computeOutcome (board (state c)) ≠ InProgress →
  dispatch c (Click index) = c.
Proof.
  intros [Hlen Hsq Hex] Hi Hcase. apply dispatch_rejected.
  unfold rejects. apply orb_true_iff.
  destruct Hcase as [[m Hm]|Hout].
  { left. by rewrite Hm. }
  unfold computeOutcome, isDraw in Hout.
  destruct (winner (computeWinner (board (state c)))) as [w|] eqn:Ew.
  { right. apply bool_decide_eq_true. eauto. }
  left. simpl in Hout.
  destruct (isBoardFull (board (state c))) eqn:Efull; [|done].
  destruct (Hsq index) as [v Hv]; [lia|].
  unfold isBoardFull in Efull.
  pose proof (proj1 (every_spec _ _) Efull index v) as Hp.
  rewrite Hv. destruct v as [m|]; [done|].
  exfalso. apply bool_decide_eq_true in Hp; [done | lia | done].
Qed.

Lemma rejected_click_changes_nothing_witness :
  dispatch (run initial [Click 4]) (Click 4) = run initial [Click 4].
Proof.
  apply (rejected_click_changes_nothing (run initial [Click 4]) 4).
  - apply reachable_inv. by exists [Click 4].
  - lia.
  - left. exists X. by vm_compute.
Defined.

(** ** The score effect *)

Lemma score_bump_same s m : score (bump s m) m = (score s m + 1)%N.
Proof. by destruct m. Qed.

Lemma score_bump_other s m : score (bump s m) (other m) = score s (other m).
Proof. by destruct m. Qed.

(** C3: when a click takes the outcome from [InProgress] to [Won m _], the
    score of [m] grows by exactly one and the other score stays; rendering
    the component again any number of times, and clicking any square
    afterwards, changes nothing, so the round is counted once. *)
Theorem winning_click_scores_once c index m ln :
  rendered c →
  computeOutcome (board (state c)) = InProgress →
  computeOutcome (board (state (dispatch c (Click index)))) = Won m ln →
  let c' := dispatch c (Click index) in
  score (scores (state c')) m = (score (scores (state c)) m + 1)%N
  ∧ score (scores (state c')) (other m) = score (scores (state c)) (other m)
  ∧ (∀ n : nat, Nat.iter n commit c' = c')
  ∧ (∀ j, dispatch c' (Click j) = c').
Proof.
  intros Hr Hbefore Hafter c'.
  assert (winner (computeWinner (board (state c))) = None) as Hw0.
  { unfold computeOutcome in Hbefore. by destruct (winner _). }
  assert (winner (computeWinner (board (state c'))) = Some m) as Hw1.
  { unfold computeOutcome in Hafter. fold c' in Hafter.
    destruct (winner (computeWinner (board (state c')))) as [w|];
      [congruence | by destruct (isDraw _)]. }
  assert (rendered c') as Hr' by by apply dispatch_rendered.
  assert (rejects (state c) index = false) as Hacc.
  { destruct (rejects (state c) index) eqn:E; [|done].
    subst c'. rewrite dispatch_rejected in Hw1 by done. congruence. }
  assert (scores (state c') = bump (scores (state c)) m) as Hs.
  { subst c'. rewrite dispatch_accepted in * by done.
    rewrite commit_board in Hw1.
    unfold commit. cbn [state winnerDep] in *.
    rewrite Hw1, Hr, Hw0. rewrite decide_False by done. simpl.
    by rewrite click_accepted. }
  rewrite Hs, score_bump_same, score_bump_other.
  split; [done|]. split; [done|]. split.
  - induction n as [|n IH]; [done|]. simpl. rewrite IH. by apply commit_id.
  - intros j. apply dispatch_rejected.
    unfold rejects. rewrite Hw1. apply orb_true_iff. right.
    apply bool_decide_eq_true. eauto.
Qed.

Lemma winning_click_scores_once_witness :
  let c := run initial (Click <$> [0; 3; 1; 4]) in
  let c' := dispatch c (Click 2) in
  score (scores (state c')) X = (score (scores (state c)) X + 1)%N
  ∧ score (scores (state c')) (other X) = score (scores (state c)) (other X)
  ∧ (∀ n : nat, Nat.iter n commit c' = c')
  ∧ (∀ j, dispatch c' (Click j) = c').
Proof.
  cbv zeta.
  apply (winning_click_scores_once
           (run initial (Click <$> [0; 3; 1; 4])) 2 X [0; 1; 2]).
  - by vm_compute.
  - by vm_compute.
  - by vm_compute.
Defined.

(** ** Clicks outside the nine squares *)

(** C4, as stated, fails: on the fresh board a click with index 9 is
    accepted; it flips the turn and stores X in a tenth element. *)
Lemma click_out_of_range_is_accepted :
  let c' := dispatch initial (Click 9) in
  xIsNext (state initial) = true
  ∧ xIsNext (state c') = false
  ∧ JsArray.length (board (state initial)) = 9
  ∧ JsArray.length (board (state c')) = 10
  ∧ JsArray.get (board (state c')) 9 = Some (Some X)
  ∧ c' ≠ initial.
Proof.
  cbv zeta. repeat (split; [by vm_compute|]).
  intros H. apply (f_equal (λ c, xIsNext (state c))) in H. by vm_compute in H.
Qed.

(** C4 (amended): a click with an index outside [0,8] goes through the same
    guard as any other.  It changes nothing when the round has a winner or
    when [board[index]] already holds a mark; otherwise it is accepted: the
    turn flips, the mark is stored under [index] in the new board, whose
    length becomes [index + 1] when [index] is an array index at or past
    the end, while the nine squares and the scores stay as they were. *)
Theorem click_out_of_range c index :
  wf_board (board (state c)) → rendered c → ¬ (0 <= index <= 8) →
  let c' := dispatch c (Click index) in
  if rejects (state c) index then c' = c
  else
    xIsNext (state c') = negb (xIsNext (state c))
    ∧ scores (state c') = scores (state c)
    ∧ JsArray.get (board (state c')) index
      = Some (Some (turn_mark (xIsNext (state c))))
    ∧ (∀ k, 0 <= k < 9 →
            JsArray.get (board (state c')) k = JsArray.get (board (state c)) k)
    ∧ JsArray.length (board (state c'))
      = (if JsArray.is_array_index index
            && (JsArray.length (board (state c)) <=? index)
         then index + 1 else JsArray.length (board (state c))).
Proof.
  intros [Hlen Hsq Hex] Hr Hi c'.
  destruct (rejects (state c) index) eqn:E.
  { by apply dispatch_rejected. }
  assert (∀ k, 0 <= k < 9 →
            JsArray.get (board (state c')) k = JsArray.get (board (state c)) k)
    as Hsame.
  { intros k Hk. subst c'. rewrite dispatch_board. simpl.
    apply get_click_other; [done | done | lia]. }
  subst c'. split; [|split; [|split; [|split]]].
  - rewrite dispatch_xIsNext. simpl. by rewrite click_accepted.
  - assert (computeWinner (board (handleSquareClick index (state c)))
            = computeWinner (board (state c))) as Hw.
    { apply winner_ext. intros k Hk. apply get_click_other; [done | done | lia]. }
    rewrite dispatch_accepted by done.
    unfold commit. cbn [state winnerDep].
    rewrite Hw, <-Hr. rewrite decide_True by done.
    cbn [state]. by rewrite click_accepted.
  - rewrite dispatch_board. simpl. rewrite get_click by done.
    by rewrite decide_True.
  - done.
  - rewrite dispatch_board. simpl. by rewrite click_accepted.
Qed.

Lemma click_out_of_range_witness :
  let c' := dispatch initial (Click 9) in
  if rejects (state initial) 9 then c' = initial
  else
    xIsNext (state c') = negb (xIsNext (state initial))
    ∧ scores (state c') = scores (state initial)
    ∧ JsArray.get (board (state c')) 9
      = Some (Some (turn_mark (xIsNext (state initial))))
    ∧ (∀ k, 0 <= k < 9 →
            JsArray.get (board (state c')) k
            = JsArray.get (board (state initial)) k)
    ∧ JsArray.length (board (state c'))
      = (if JsArray.is_array_index 9
            && (JsArray.length (board (state initial)) <=? 9)
         then 9 + 1 else JsArray.length (board (state initial))).
Proof.
  apply (click_out_of_range initial 9).
  - apply wf_emptyBoard.
  - reflexivity.
  - lia.
Defined.

(** ** Turns *)

Lemma run_cons c e es : run c (e :: es) = run (dispatch c e) es.
Proof. reflexivity. Qed.

Lemma click_xIsNext c index :
  xIsNext (state (dispatch c (Click index)))
  = if rejects (state c) index then xIsNext (state c)
    else negb (xIsNext (state c)).
Proof.
  rewrite dispatch_xIsNext. simpl. unfold handleSquareClick.
  by destruct (rejects _ _).
Qed.

(** The turn flag after a list of clicks, from any starting component. *)
Lemma xIsNext_after_clicks c (l : list Z) :
  xIsNext (state (run c (Click <$> l)))
  = if Nat.even (accepted_count c l) then xIsNext (state c)
    else negb (xIsNext (state c)).
Proof.
  revert c. induction l as [|index l IH]; intros c; [done|].
  rewrite fmap_cons, run_cons, IH, click_xIsNext.
  cbn [accepted_count].
  destruct (rejects (state c) index); [done|].
  change (1 + ?n)%nat with (S n). rewrite Nat.even_succ, <-Nat.negb_even.
  destruct (Nat.even _); simpl; [done | by rewrite negb_involutive].
Qed.

(** C5: from a state where X is to play (every reset state is one), after
    any list of clicks of which [n] were accepted, X is to play exactly when
    [n] is even; and a rejected click leaves the turn as it is. *)
Theorem turn_alternates c (l : list Z) :
  xIsNext (state c) = true →
  let c' := run c (Click <$> l) in
  (turn_mark (xIsNext (state c')) = X ↔ Nat.even (accepted_count c l) = true)
  ∧ (∀ index, rejects (state c') index = true →
              xIsNext (state (dispatch c' (Click index))) = xIsNext (state c')).
Proof.
  intros Hx c'. split.
  - subst c'. rewrite xIsNext_after_clicks, Hx.
    by destruct (Nat.even _).
  - intros index Hrej. by rewrite click_xIsNext, Hrej.
Qed.

Lemma turn_alternates_witness :
  let c' := run initial (Click <$> [0; 0; 4; 9; 4]) in
  (turn_mark (xIsNext (state c')) = X
   ↔ Nat.even (accepted_count initial [0; 0; 4; 9; 4]) = true)
  ∧ (∀ index, rejects (state c') index = true →
              xIsNext (state (dispatch c' (Click index))) = xIsNext (state c')).
Proof.
  apply (turn_alternates initial [0; 0; 4; 9; 4]). reflexivity.
Defined.

(** ** Draws *)

(** C6: on a board of nine defined squares on which no line of [WIN_LINES]
    holds one mark on its three squares, the outcome is [Draw] when the nine
    squares are all occupied and [InProgress] when one of them is empty. *)
Theorem no_line_draw_or_in_progress b :
  wf_board b →
  (∀ l m, l ∈ WIN_LINES → ¬ line_full b l m) →
  ((∀ k, 0 <= k < 9 → ∃ m, JsArray.get b k = Some (Some m)) →
   computeOutcome b = Draw)
  ∧ ((∃ k, 0 <= k < 9 ∧ JsArray.get b k = Some null) →
     computeOutcome b = InProgress).
Proof.
  intros [Hlen Hsq Hex] Hnone.
  assert (winner (computeWinner b) = None) as Hw.
  { apply scan_lines_None. intros l Hl. apply line_mark_None. eauto. }
  unfold computeOutcome, isDraw. rewrite Hw. simpl. split.
  - intros Hall.
    assert (isBoardFull b = true) as ->; [|done].
    apply every_spec. intros k v Hk Hv. apply bool_decide_eq_true.
    destruct (decide (k < 9)) as [Hlt|Hge].
    + destruct (Hall k) as [m Hm]; [lia|]. unfold null. congruence.
    + intros ->. apply (Hex k); [lia | done].
  - intros (k & Hk & Hnull).
    destruct (isBoardFull b) eqn:Efull; [|done].
    pose proof (proj1 (every_spec _ _) Efull k null) as Hp.
    apply bool_decide_eq_true in Hp; [done | lia | done].
Qed.

Lemma no_line_draw_or_in_progress_witness :
  computeOutcome (board (state (run initial (Click <$> drawn_game)))) = Draw.
Proof.
  apply (no_line_draw_or_in_progress
           (board (state (run initial (Click <$> drawn_game))))).
  - apply reachable_inv. by exists (Click <$> drawn_game).
  - intros l m Hl Hf%line_mark_spec. revert Hf.
    unfold WIN_LINES in Hl. rewrite !elem_of_cons, elem_of_nil in Hl.
    repeat (destruct Hl as [->|Hl]; [by vm_compute|]). done.
  - intros k Hk.
    assert (k = 0 ∨ k = 1 ∨ k = 2 ∨ k = 3 ∨ k = 4 ∨ k = 5 ∨ k = 6 ∨ k = 7 ∨ k = 8)
      as Hc by lia.
    repeat (destruct Hc as [->|Hc]; [vm_compute; eauto|]).
    subst k. vm_compute. eauto.
Defined.

(** ** Resets *)

(** C7: from every component, "Reset Game" gives the board
    [Array(9).fill(null)], of length nine with [null] in each square, makes
    X the next player and keeps the scores; "Reset All" gives the same board
    and turn and the scores [{ X: 0, O: 0 }]. *)
Theorem reset_semantics c :
  state (dispatch c ResetGame)
  = {| board := emptyBoard; xIsNext := true; scores := scores (state c) |}
  ∧ state (dispatch c ResetAll)
    = {| board := emptyBoard; xIsNext := true;
         scores := {| score_X := 0; score_O := 0 |} |}
  ∧ JsArray.length emptyBoard = 9
  ∧ (∀ k, 0 <= k < 9 → JsArray.get emptyBoard k = Some null)
  ∧ computeOutcome emptyBoard = InProgress.
Proof.
  assert (∀ st dep, board st = emptyBoard →
            state (commit {| state := st; winnerDep := dep |}) = st) as Hc.
  { intros st dep Hb. unfold commit. cbn [state winnerDep].
    rewrite Hb, winner_emptyBoard. simpl. by case_decide. }
  unfold dispatch. cbn [updates].
  split; [by apply Hc|]. split; [by apply Hc|]. split; [done|]. split.
  - intros k Hk. by rewrite get_emptyBoard, decide_True.
  - by vm_compute.
Qed.

(** ** The shape of the board *)

(** C8, as stated, fails: after one click with index 9 on the fresh board
    the board has ten elements. *)
Lemma board_length_not_always_nine :
  reachable (run initial [Click 9])
  ∧ JsArray.length (board (state (run initial [Click 9]))) = 10
  ∧ JsArray.length (board (state (run initial [Click 9]))) ≠ 9.
Proof.
  split; [by exists [Click 9]|]. split; [by vm_compute|]. by vm_compute.
Qed.

Lemma length_handle_in_squares st e :
  in_squares e → JsArray.length (board st) = 9 →
  JsArray.length (board (handle e st)) = 9.
Proof.
  destruct e as [index| |]; simpl; [|done..].
  intros Hi Hlen. rewrite length_click_in; [done | lia].
Qed.

(** C8 (amended): in every state that clicks (with any integer index) and
    resets can produce, the board has at least nine elements and its nine
    squares are all defined; it has exactly nine elements when every click
    so far was on one of the nine squares.  An event changes a square only
    in two ways: an accepted click on that square, then empty, writes the
    mark of the player to move, and a reset empties it.  A click never
    shortens the board. *)
Theorem board_shape es e :
  let c := run initial es in
  let c' := dispatch c e in
  9 <= JsArray.length (board (state c))
  ∧ (∀ k, 0 <= k < 9 → is_Some (JsArray.get (board (state c)) k))
  ∧ (Forall in_squares es → JsArray.length (board (state c)) = 9)
  ∧ (∀ k, 0 <= k < 9 →
       JsArray.get (board (state c')) k = JsArray.get (board (state c)) k
       ∨ (e = Click k ∧ rejects (state c) k = false
          ∧ JsArray.get (board (state c)) k = Some null
          ∧ JsArray.get (board (state c')) k
            = Some (Some (turn_mark (xIsNext (state c)))))
       ∨ ((e = ResetGame ∨ e = ResetAll)
          ∧ JsArray.get (board (state c')) k = Some null))
  ∧ (∀ index, e = Click index →
       JsArray.length (board (state c)) <= JsArray.length (board (state c'))).
Proof.
  intros c c'.
  assert (reachable c) as Hreach by by exists es.
  destruct (reachable_inv c Hreach) as ([Hlen Hsq Hex] & Hr & _).
  split; [done|]. split; [done|]. split; [|split].
  - subst c c'. clear. induction es as [|e0 es0 IH] using rev_ind; [done|].
    rewrite Forall_app, Forall_singleton. intros [Hes He0].
    rewrite run_snoc, dispatch_board.
    apply length_handle_in_squares; [done | by apply IH].
  - intros k Hk. subst c'. rewrite dispatch_board.
    destruct e as [index| |]; simpl.
    + destruct (decide (index = k)) as [->|Hne].
      * destruct (rejects (state c) k) eqn:E.
        { left. by rewrite click_rejected. }
        right. left. rewrite get_click, decide_True by done.
        pose proof E as [Ht _]%rejects_false.
        destruct (Hsq k Hk) as [v Hv]. rewrite Hv in Ht |- *.
        by destruct v.
      * left. by apply get_click_other.
    + right. right. rewrite get_emptyBoard, decide_True by done. auto.
    + right. right. rewrite get_emptyBoard, decide_True by done. auto.
  - intros index ->. subst c'. rewrite dispatch_board. apply length_click.
Qed.

(** ** The status message *)

(** C9: the status message, computed from the board and the turn flag, is
    "Winner: m" exactly when the outcome is [Won m _], "It's a draw" exactly
    when the outcome is [Draw], and "Turn: m" exactly when the outcome is
    [InProgress] and [m] is the player to move. *)
Theorem statusMessage_cases b t :
  (∀ m, statusMessage b t = "Winner: " +:+ mark_string m
        ↔ ∃ ln, computeOutcome b = Won m ln)
  ∧ (statusMessage b t = "It's a draw" ↔ computeOutcome b = Draw)
  ∧ (∀ m, statusMessage b t = "Turn: " +:+ mark_string m
          ↔ computeOutcome b = InProgress ∧ turn_mark t = m).
Proof.
  unfold statusMessage, computeOutcome.
  destruct (winner (computeWinner b)) as [w|]; [|destruct (isDraw b)].
  - split; [|split].
    + intros m. destruct w, m; simpl; split; status_case.
    + destruct w; simpl; split; status_case.
    + intros m. destruct w, m; simpl; split; status_case.
  - split; [|split].
    + intros m. destruct m; simpl; split; status_case.
    + done.
    + intros m. destruct m; simpl; split; status_case.
  - split; [|split].
    + intros m. destruct m; simpl; split; status_case.
    + destruct t; simpl; split; status_case.
    + intros m. destruct t, m; simpl; split; status_case.
Qed.

(** ** Accepted clicks *)

(** Counting the elements of a list on which a test holds, when the test
    changes from false to true at one element. *)
Lemma count_same (f g : Z → bool) (l : list Z) :
  (∀ k, k ∈ l → g k = f k) →
  base.length (filter (λ k, g k = true) l)
  = base.length (filter (λ k, f k = true) l).
Proof.
  induction l as [|x l IH]; intros H; [done|].
  rewrite !filter_cons, (H x) by left.
  destruct (decide (f x = true)); simpl; rewrite IH; auto;
    intros k Hk; apply H; by right.
Qed.

Lemma count_one_more (f g : Z → bool) (l : list Z) i :
  NoDup l → i ∈ l → f i = false → g i = true →
  (∀ k, k ∈ l → k ≠ i → g k = f k) →
  base.length (filter (λ k, g k = true) l)
  = S (base.length (filter (λ k, f k = true) l)).
Proof.
  induction l as [|x l IH]; intros Hnd Hi Hf Hg Hother.
  { by apply elem_of_nil in Hi. }
  apply NoDup_cons in Hnd as [Hx Hnd].
  rewrite !filter_cons.
  destruct (decide (x = i)) as [->|Hne].
  - rewrite decide_True by done. rewrite decide_False by congruence.
    simpl. f_equal. apply count_same.
    intros k Hk. apply Hother; [by right | congruence].
  - apply elem_of_cons in Hi as [?|Hi]; [congruence|].
    rewrite (Hother x) by (done || left).
    destruct (decide (f x = true)); simpl; rewrite IH; auto;
      intros k Hk; apply Hother; by right.
Qed.

(** C10: on a board of at least nine elements whose outcome is
    [InProgress], a click on an empty square of [0,8] writes the mark of the
    player to move into that square, leaves the other eight squares as they
    were, and so raises the number of occupied squares by one. *)
Theorem accepted_click_frame c index :
  9 <= JsArray.length (board (state c)) → 0 <= index <= 8 →
  JsArray.get (board (state c)) index = Some null →
  computeOutcome (board (state c)) = InProgress →
  let c' := dispatch c (Click index) in
  JsArray.get (board (state c')) index
  = Some (Some (turn_mark (xIsNext (state c))))
  ∧ (∀ k, 0 <= k < 9 → k ≠ index →
          JsArray.get (board (state c')) k = JsArray.get (board (state c)) k)
  ∧ occupied (board (state c')) = S (occupied (board (state c))).
Proof.
  intros Hlen Hi Hnull Hout c'.
  assert (rejects (state c) index = false) as Hacc.
  { apply rejects_false. rewrite Hnull. split; [done|].
    unfold computeOutcome in Hout. by destruct (winner _). }
  assert (JsArray.get (board (state c')) index
          = Some (Some (turn_mark (xIsNext (state c))))) as Hnew.
  { subst c'. rewrite dispatch_board. simpl.
    rewrite get_click by done. by rewrite decide_True. }
  assert (∀ k, 0 <= k < 9 → k ≠ index →
            JsArray.get (board (state c')) k = JsArray.get (board (state c)) k)
    as Hframe.
  { intros k Hk Hne. subst c'. rewrite dispatch_board. simpl.
    by apply get_click_other. }
  split; [done|]. split; [done|].
  unfold occupied.
  apply (count_one_more (λ k, truthy (JsArray.get (board (state c)) k))
           (λ k, truthy (JsArray.get (board (state c')) k)) _ index).
  - apply NoDup_seqZ.
  - apply elem_of_seqZ. lia.
  - by rewrite Hnull.
  - by rewrite Hnew.
  - intros k Hk%elem_of_seqZ Hne. rewrite Hframe; [done | lia | done].
Qed.

Lemma accepted_click_frame_witness :
  let c := run initial [Click 0] in
  let c' := dispatch c (Click 4) in
  JsArray.get (board (state c')) 4 = Some (Some (turn_mark (xIsNext (state c))))
  ∧ (∀ k, 0 <= k < 9 → k ≠ 4 →
          JsArray.get (board (state c')) k = JsArray.get (board (state c)) k)
  ∧ occupied (board (state c')) = S (occupied (board (state c))).
Proof.
  cbv zeta. apply (accepted_click_frame (run initial [Click 0]) 4).
  - by vm_compute.
  - lia.
  - by vm_compute.
  - by vm_compute.
Defined.

(** * Further properties of the component *)

(** ** Counting squares *)

Lemma count_all (f : Z → bool) (l : list Z) :
  (∀ k, k ∈ l → f k = true) →
  base.length (filter (λ k, f k = true) l) = base.length l.
Proof.
  induction l as [|x l IH]; intros H; [done|].
  rewrite filter_cons, decide_True by (apply H; left).
  simpl. f_equal. apply IH. intros k Hk. apply H. by right.
Qed.

Lemma count_split (f g h : Z → bool) (l : list Z) :
  (∀ k, f k = g k || h k) → (∀ k, g k && h k = false) →
  base.length (filter (λ k, f k = true) l)
  = (base.length (filter (λ k, g k = true) l)
     + base.length (filter (λ k, h k = true) l))%nat.
Proof.
  intros Hor Hex. induction l as [|x l IH]; [done|].
  rewrite !filter_cons. specialize (Hor x). specialize (Hex x).
  destruct (g x) eqn:Eg, (h x) eqn:Eh; simpl in *; try done;
    rewrite Hor; simpl; rewrite IH; lia.
Qed.

Lemma occupied_le b : (occupied b <= 9)%nat.
Proof.
  unfold occupied. etrans; [apply length_filter|]. by rewrite length_seqZ.
Qed.

Lemma occupied_marks b : occupied b = (countMark b X + countMark b O)%nat.
Proof.
  unfold occupied, countMark. apply count_split.
  - intros k. by destruct (JsArray.get b k) as [[[|]|]|].
  - intros k. by destruct (JsArray.get b k) as [[[|]|]|].
Qed.

Lemma countMark_empty m : countMark emptyBoard m = 0%nat.
Proof. by destruct m; vm_compute. Qed.

Section click_counts.
Context (c : Component) (index : Z).
Hypothesis Hwf : wf_board (board (state c)).
Hypothesis Hindex : 0 <= index <= 8.

Let c' := dispatch c (Click index).

Lemma wf_dispatch e : wf_board (board (state (dispatch c e))).
Proof. rewrite dispatch_board. by apply wf_handle. Qed.

Lemma occupied_click :
  occupied (board (state c'))
  = (occupied (board (state c))
     + if rejects (state c) index then 0 else 1)%nat.
Proof.
  subst c'. destruct (rejects (state c) index) eqn:E.
  { rewrite dispatch_rejected by done. lia. }
  pose proof E as [Hfalsy _]%rejects_false.
  rewrite Nat.add_1_r. unfold occupied.
  apply (count_one_more (λ k, truthy (JsArray.get (board (state c)) k))
           (λ k, truthy (JsArray.get (board (state (dispatch c (Click index)))) k))
           _ index).
  - apply NoDup_seqZ.
  - apply elem_of_seqZ. lia.
  - done.
  - rewrite dispatch_board. simpl. rewrite get_click by done.
    by rewrite decide_True.
  - intros k Hk%elem_of_seqZ Hne. rewrite dispatch_board. simpl.
    rewrite get_click_other; [done | apply Hwf | lia | done].
Qed.

Lemma countMark_click_mover :
  rejects (state c) index = false →
  countMark (board (state c')) (turn_mark (xIsNext (state c)))
  = S (countMark (board (state c)) (turn_mark (xIsNext (state c)))).
Proof.
  intros E. subst c'. pose proof E as [Hfalsy _]%rejects_false.
  unfold countMark.
  apply (count_one_more
           (λ k, strict_eq (JsArray.get (board (state c)) k) _)
           (λ k, strict_eq
                   (JsArray.get (board (state (dispatch c (Click index)))) k) _)
           _ index).
  - apply NoDup_seqZ.
  - apply elem_of_seqZ. lia.
  - destruct (JsArray.get (board (state c)) index) as [[m|]|]; [done|..];
      unfold strict_eq; by apply bool_decide_eq_false.
  - rewrite dispatch_board. simpl. rewrite get_click by done.
    rewrite decide_True by done. unfold strict_eq. by apply bool_decide_eq_true.
  - intros k Hk%elem_of_seqZ Hne. rewrite dispatch_board. simpl.
    rewrite get_click_other; [done | apply Hwf | lia | done].
Qed.

Lemma countMark_click_other :
  rejects (state c) index = false →
  countMark (board (state c')) (other (turn_mark (xIsNext (state c))))
  = countMark (board (state c)) (other (turn_mark (xIsNext (state c)))).
Proof.
  intros E. subst c'. pose proof E as [Hfalsy _]%rejects_false.
  unfold countMark. apply count_same.
  intros k Hk%elem_of_seqZ. rewrite dispatch_board. simpl.
  destruct (decide (index = k)) as [<-|Hne].
  - rewrite get_click, decide_True by done.
    unfold strict_eq. rewrite !bool_decide_eq_false_2; [done | |].
    + intros H. rewrite H in Hfalsy. done.
    + by destruct (xIsNext (state c)).
  - rewrite get_click_other; [done | apply Hwf | lia | done].
Qed.

End click_counts.

(** ** What the page can deliver *)

Lemma page_events_spec b e :
  e ∈ page_events b
  ↔ (∃ index, e = Click index ∧ 0 <= index <= 8) ∨ e = ResetGame ∨ e = ResetAll.
Proof.
  unfold page_events, renderBoard.
  rewrite elem_of_app, !elem_of_cons, elem_of_nil, list_elem_of_fmap.
  split.
  - intros [(sq & -> & Hsq)|[?|[?|?]]]; auto; [|done].
    apply list_elem_of_fmap in Hsq as (k & -> & Hk%elem_of_seqZ).
    left. exists k. split; [done | lia].
  - intros [(index & -> & Hi)|[-> | ->]]; auto.
    left. eexists. split; [|apply list_elem_of_fmap; exists index; split; [done|]].
    + done.
    + apply elem_of_seqZ. lia.
Qed.

Lemma page_events_in_squares b e : e ∈ page_events b ↔ in_squares e.
Proof.
  rewrite page_events_spec. destruct e as [index| |]; simpl.
  - split; [by intros [(? & [= ->] & ?)|[?|?]] | eauto].
  - split; auto.
  - split; auto.
Qed.

Lemma page_reachable_run es : Forall in_squares es → page_reachable (run initial es).
Proof.
  induction es as [|e es IH] using rev_ind; [constructor|].
  rewrite Forall_app, Forall_singleton. intros [Hes He].
  rewrite run_snoc. apply page_step; [auto|]. by apply page_events_in_squares.
Qed.

Lemma page_reachable_reachable c : page_reachable c → reachable c.
Proof.
  induction 1 as [|c e Hc IH He]; [by exists (@nil Event)|].
  destruct IH as [es <-]. exists (es ++ [e]). apply run_snoc.
Qed.

Lemma nine_squares_empty : nine_squares emptyBoard.
Proof.
  split; [done|]. intros k. rewrite get_emptyBoard.
  case_decide; split; try done; by intros [? ?].
Qed.

Lemma nine_squares_click st index :
  0 <= index <= 8 → nine_squares (board st) →
  nine_squares (board (handleSquareClick index st)).
Proof.
  intros Hi [Hlen Hsq]. destruct (rejects st index) eqn:E.
  { by rewrite click_rejected. }
  split.
  - rewrite length_click_in; [done | lia].
  - intros k. rewrite get_click by done. rewrite Hlen.
    destruct (decide (index = k)) as [<-|Hne].
    + split; [intros _; lia | eauto].
    + case_decide; [apply Hsq|]. split; [by intros [] | done].
Qed.

Lemma page_reachable_nine c : page_reachable c → nine_squares (board (state c)).
Proof.
  induction 1 as [|c e _ IH He]; [apply nine_squares_empty|].
  rewrite dispatch_board.
  apply page_events_spec in He as [(index & -> & Hi)|[-> | ->]]; simpl.
  - by apply nine_squares_click.
  - apply nine_squares_empty.
  - apply nine_squares_empty.
Qed.

Lemma page_reachable_balanced c : page_reachable c → balanced (state c).
Proof.
  induction 1 as [|c e Hc IH He].
  { unfold balanced. simpl. by rewrite !countMark_empty. }
  pose proof (reachable_inv c (page_reachable_reachable c Hc)) as (Hwf & _ & _).
  unfold balanced in *.
  apply page_events_spec in He as [(index & -> & Hi)|[-> | ->]];
    [|rewrite dispatch_board, dispatch_xIsNext; simpl;
      by rewrite !countMark_empty..].
  destruct (rejects (state c) index) eqn:E.
  { by rewrite dispatch_rejected. }
  pose proof (countMark_click_mover c index Hwf Hi E) as Hmover.
  pose proof (countMark_click_other c index Hwf E) as Hother.
  rewrite dispatch_xIsNext. simpl. rewrite click_accepted by done.
  cbn [xIsNext].
  destruct (xIsNext (state c)); simpl in *; lia.
Qed.

Lemma forallb_false_elem {A} (f : A → bool) (l : list A) :
  forallb f l = false → ∃ x, x ∈ l ∧ f x = false.
Proof.
  induction l as [|x l IH]; [done|]. simpl.
  destruct (f x) eqn:E.
  - intros (y & Hy & Hf)%IH. exists y. split; [by right | done].
  - intros _. exists x. split; [left | done].
Qed.

(** A board that is not full has an empty square among the nine. *)
Lemma not_full_empty_square b :
  wf_board b → isBoardFull b = false →
  ∃ k, 0 <= k < 9 ∧ JsArray.get b k = Some null.
Proof.
  intros [Hlen Hsq Hex] Hfull. unfold isBoardFull, JsArray.every in Hfull.
  apply forallb_false_elem in Hfull as (k & Hk%elem_of_seqZ & Hf).
  destruct (JsArray.get b k) as [v|] eqn:Ev; [|done].
  apply bool_decide_eq_false in Hf.
  assert (v = null) as -> by (by destruct (decide (v = null))).
  exists k. split; [|done].
  destruct (decide (k < 9)); [lia|]. exfalso. apply (Hex k); [lia | done].
Qed.

(** On a full board the nine squares are all occupied. *)
Lemma full_occupied b : wf_board b → isBoardFull b = true → occupied b = 9%nat.
Proof.
  intros [Hlen Hsq Hex] Hfull. unfold occupied.
  rewrite count_all; [by rewrite length_seqZ|].
  intros k Hk%elem_of_seqZ. destruct (Hsq k) as [v Hv]; [lia|].
  unfold isBoardFull in Hfull.
  pose proof (proj1 (every_spec _ _) Hfull k v) as Hp.
  rewrite Hv. destruct v as [m|]; [done|].
  apply bool_decide_eq_true in Hp; [done | lia | done].
Qed.

(** The winner that an accepted click produces is the player who clicked. *)
Lemma winner_after_click st index m :
  9 <= JsArray.length (board st) → rejects st index = false →
  winner (computeWinner (board (handleSquareClick index st))) = Some m →
  m = turn_mark (xIsNext st).
Proof.
  intros Hlen Hacc (i & l & Hl & Hm & _)%scan_lines_Some.
  apply (full_after_click st index l); try done.
  apply list_elem_of_lookup. eauto.
Qed.

Lemma turn_mark_negb x : turn_mark (negb x) = other (turn_mark x).
Proof. by destruct x. Qed.

Lemma reachable_winner_moved_last c m :
  reachable c → winner (computeWinner (board (state c))) = Some m →
  turn_mark (xIsNext (state c)) = other m.
Proof.
  intros [es <-]. revert m. induction es as [|e es IH] using rev_ind; intros m.
  { simpl. by rewrite winner_emptyBoard. }
  rewrite run_snoc, dispatch_board, dispatch_xIsNext.
  destruct e as [index| |]; simpl; [|by rewrite winner_emptyBoard..].
  destruct (rejects (state (run initial es)) index) eqn:E.
  { rewrite click_rejected by done. apply IH. }
  intros Hw. apply winner_after_click in Hw; [|apply reachable_inv; by exists es|done].
  rewrite click_accepted by done. cbn [xIsNext].
  by rewrite turn_mark_negb, Hw.
Qed.

Lemma commit_empty st dep :
  board st = emptyBoard →
  commit {| state := st; winnerDep := dep |}
  = {| state := st; winnerDep := None |}.
Proof.
  intros Hb. unfold commit. cbn [state winnerDep].
  rewrite Hb, winner_emptyBoard. simpl.
  case_decide; [by subst | done].
Qed.

Lemma outcome_won b m ln :
  computeOutcome b = Won m ln → winner (computeWinner b) = Some m.
Proof.
  unfold computeOutcome. destruct (winner (computeWinner b)) as [w|].
  - by intros [= -> _].
  - by destruct (isDraw b).
Qed.

Lemma outcome_in_progress b :
  computeOutcome b = InProgress
  ↔ winner (computeWinner b) = None ∧ isBoardFull b = false.
Proof.
  unfold computeOutcome, isDraw.
  destruct (winner (computeWinner b)) as [w|]; simpl.
  - split; [done | by intros [? _]].
  - destruct (isBoardFull b); split; try done; by intros [_ ?].
Qed.

Lemma outcome_draw b :
  computeOutcome b = Draw
  ↔ winner (computeWinner b) = None ∧ isBoardFull b = true.
Proof.
  unfold computeOutcome, isDraw.
  destruct (winner (computeWinner b)) as [w|]; simpl.
  - split; [done | by intros [? _]].
  - destruct (isBoardFull b); split; try done; by intros [_ ?].
Qed.

(** ** Who wins, and when *)

(** X1: in every state that the events can produce, a round that is won
    was won by the player who moved last: the turn flag points to the other
    player. *)
Theorem winner_moved_last c m ln :
  reachable c → computeOutcome (board (state c)) = Won m ln →
  turn_mark (xIsNext (state c)) = other m.
Proof.
  intros Hreach Hwon%outcome_won. by apply reachable_winner_moved_last.
Qed.

Lemma winner_moved_last_witness :
  turn_mark (xIsNext (state (run initial (Click <$> [0; 3; 1; 4; 2])))) = other X.
Proof.
  apply (winner_moved_last (run initial (Click <$> [0; 3; 1; 4; 2])) X [0; 1; 2]).
  - by exists (Click <$> [0; 3; 1; 4; 2]).
  - by vm_compute.
Defined.

(** X2: whatever the user does with the page as rendered (the nine square
    buttons and the two reset buttons), the board keeps exactly nine
    elements, the squares 0 to 8, and no other property. *)
Theorem page_board_has_nine_squares c :
  page_reachable c →
  JsArray.length (board (state c)) = 9
  ∧ ∀ k, is_Some (JsArray.get (board (state c)) k) ↔ 0 <= k < 9.
Proof. apply page_reachable_nine. Qed.

Lemma page_board_has_nine_squares_witness :
  JsArray.length (board (state (run initial [Click 4; Click 4; ResetGame; Click 0]))) = 9
  ∧ ∀ k, is_Some (JsArray.get
                    (board (state (run initial [Click 4; Click 4; ResetGame; Click 0]))) k)
         ↔ 0 <= k < 9.
Proof.
  apply (page_board_has_nine_squares
           (run initial [Click 4; Click 4; ResetGame; Click 0])).
  apply page_reachable_run. all_in_range.
Defined.

(** X3: through the page, X and O alternate on the squares with X first:
    there are as many X as O when X is to move, and one more X than O when
    O is to move. *)
Theorem marks_balanced c :
  page_reachable c →
  countMark (board (state c)) X
  = (countMark (board (state c)) O + if xIsNext (state c) then 0 else 1)%nat.
Proof. apply page_reachable_balanced. Qed.

Lemma marks_balanced_witness :
  let c := run initial (Click <$> [0; 3; 1]) in
  countMark (board (state c)) X
  = (countMark (board (state c)) O + if xIsNext (state c) then 0 else 1)%nat.
Proof.
  apply (marks_balanced (run initial (Click <$> [0; 3; 1]))).
  apply (page_reachable_run (Click <$> [0; 3; 1])).
  all_in_range.
Defined.

(** X4: through the page, a draw is always reached by X's fifth mark: the
    board then holds five X and four O, and the turn flag points to O. *)
Theorem draw_has_five_X_four_O c :
  page_reachable c → computeOutcome (board (state c)) = Draw →
  countMark (board (state c)) X = 5%nat
  ∧ countMark (board (state c)) O = 4%nat
  ∧ xIsNext (state c) = false.
Proof.
  intros Hpage [_ Hfull]%outcome_draw.
  pose proof (reachable_inv c (page_reachable_reachable c Hpage)) as (Hwf & _ & _).
  pose proof (full_occupied _ Hwf Hfull) as Hocc.
  rewrite occupied_marks in Hocc.
  pose proof (page_reachable_balanced c Hpage) as Hbal. unfold balanced in Hbal.
  destruct (xIsNext (state c)); [lia|]. repeat split; lia.
Qed.

Lemma draw_has_five_X_four_O_witness :
  let c := run initial (Click <$> drawn_game) in
  countMark (board (state c)) X = 5%nat
  ∧ countMark (board (state c)) O = 4%nat
  ∧ xIsNext (state c) = false.
Proof.
  apply (draw_has_five_X_four_O (run initial (Click <$> drawn_game))).
  - apply (page_reachable_run (Click <$> drawn_game)).
    all_in_range.
  - by vm_compute.
Defined.

(** ** How long a round lasts *)

Lemma occupied_after_clicks c (l : list Z) :
  wf_board (board (state c)) → Forall (λ index, 0 <= index <= 8) l →
  occupied (board (state (run c (Click <$> l))))
  = (occupied (board (state c)) + accepted_count c l)%nat.
Proof.
  revert c. induction l as [|index l IH]; intros c Hwf Hl.
  { simpl. lia. }
  apply Forall_cons in Hl as [Hi Hl].
  rewrite fmap_cons, run_cons, IH; [|by apply wf_dispatch|done].
  rewrite occupied_click by done. cbn [accepted_count]. lia.
Qed.

(** X5: on a board of nine defined squares, every accepted click on one of
    the nine squares occupies one more square, so that a list of such clicks
    has at most nine accepted ones, fewer by the squares already
    occupied. *)
Theorem accepted_clicks_fill_squares c (l : list Z) :
  wf_board (board (state c)) → Forall (λ index, 0 <= index <= 8) l →
  occupied (board (state (run c (Click <$> l))))
  = (occupied (board (state c)) + accepted_count c l)%nat
  ∧ (occupied (board (state c)) + accepted_count c l <= 9)%nat.
Proof.
  intros Hwf Hl. pose proof (occupied_after_clicks c l Hwf Hl) as Hocc.
  split; [done|]. rewrite <-Hocc. apply occupied_le.
Qed.

Lemma accepted_clicks_fill_squares_witness :
  let l := [0; 0; 4; 8; 4; 1] in
  occupied (board (state (run initial (Click <$> l))))
  = (occupied (board (state initial)) + accepted_count initial l)%nat
  ∧ (occupied (board (state initial)) + accepted_count initial l <= 9)%nat.
Proof.
  apply (accepted_clicks_fill_squares initial [0; 0; 4; 8; 4; 1]).
  - apply wf_emptyBoard.
  - all_in_range.
Defined.

(** X6: a round in progress is never stuck: on a board of nine defined
    squares whose outcome is [InProgress], some square of 0 to 8 is empty,
    and a click on it is accepted and occupies it. *)
Theorem in_progress_accepts_a_click c :
  wf_board (board (state c)) →
  computeOutcome (board (state c)) = InProgress →
  ∃ k, 0 <= k < 9
       ∧ JsArray.get (board (state c)) k = Some null
       ∧ rejects (state c) k = false
       ∧ occupied (board (state (dispatch c (Click k))))
         = S (occupied (board (state c))).
Proof.
  intros Hwf [Hw Hfull]%outcome_in_progress.
  destruct (not_full_empty_square _ Hwf Hfull) as (k & Hk & Hnull).
  assert (rejects (state c) k = false) as Hacc.
  { apply rejects_false. by rewrite Hnull. }
  exists k. repeat split; try done; try lia.
  rewrite occupied_click by (done || lia). rewrite Hacc. lia.
Qed.

Lemma in_progress_accepts_a_click_witness :
  let c := run initial (Click <$> [0; 4]) in
  ∃ k, 0 <= k < 9
       ∧ JsArray.get (board (state c)) k = Some null
       ∧ rejects (state c) k = false
       ∧ occupied (board (state (dispatch c (Click k))))
         = S (occupied (board (state c))).
Proof.
  apply (in_progress_accepts_a_click (run initial (Click <$> [0; 4]))).
  - apply reachable_inv. by exists (Click <$> [0; 4]).
  - by vm_compute.
Defined.

(** ** Where points come from *)

(** X7: between two events, on a board of nine defined squares, what one
    event does to the scores.  A click that is accepted and leaves a winner
    on the board gives one point to the player who clicked, and that player
    is the winner; every other click, and "Reset Game", leave the scores as
    they are; "Reset All" sets both to zero. *)
Theorem event_changes_scores c e :
  wf_board (board (state c)) → rendered c →
  let c' := dispatch c e in
  let mover := turn_mark (xIsNext (state c)) in
  match e with
  | Click index =>
      match winner (computeWinner (board (state c'))) with
      | Some m =>
          if rejects (state c) index
          then scores (state c') = scores (state c)
          else m = mover ∧ scores (state c') = bump (scores (state c)) mover
      | None => scores (state c') = scores (state c)
      end
  | ResetGame => scores (state c') = scores (state c)
  | ResetAll => scores (state c') = {| score_X := 0; score_O := 0 |}
  end.
Proof.
  intros Hwf Hr c' mover. subst c'. destruct e as [index| |].
  - destruct (rejects (state c) index) eqn:E.
    { rewrite dispatch_rejected by done. by destruct (winner _). }
    pose proof E as [_ Hw0]%rejects_false.
    rewrite dispatch_accepted by done. rewrite commit_board. cbn [state].
    destruct (winner (computeWinner (board (handleSquareClick index (state c)))))
      as [m|] eqn:Hw1.
    + pose proof (winner_after_click _ _ _ (wf_length _ Hwf) E Hw1) as ->.
      split; [done|].
      unfold commit. cbn [state winnerDep].
      rewrite Hw1, Hr, Hw0. rewrite decide_False by done.
      cbn [state scoreEffect scores]. by rewrite click_accepted.
    + unfold commit. cbn [state winnerDep].
      rewrite Hw1, Hr, Hw0. rewrite decide_True by done.
      cbn [state]. by rewrite click_accepted.
  - unfold dispatch. cbn [updates handle]. by rewrite commit_empty.
  - unfold dispatch. cbn [updates handle]. by rewrite commit_empty.
Qed.

Lemma event_changes_scores_witness :
  let c := run initial (Click <$> [0; 3; 1; 4]) in
  let c' := dispatch c (Click 2) in
  let mover := turn_mark (xIsNext (state c)) in
  match winner (computeWinner (board (state c'))) with
  | Some m =>
      if rejects (state c) 2
      then scores (state c') = scores (state c)
      else m = mover ∧ scores (state c') = bump (scores (state c)) mover
  | None => scores (state c') = scores (state c)
  end.
Proof.
  apply (event_changes_scores (run initial (Click <$> [0; 3; 1; 4])) (Click 2)).
  - apply reachable_inv. by exists (Click <$> [0; 3; 1; 4]).
  - by vm_compute.
Defined.

(** ** Resets and later rounds *)

Lemma dispatch_ResetAll c : dispatch c ResetAll = initial.
Proof. unfold dispatch. cbn [updates handle]. by rewrite commit_empty. Qed.

Lemma dispatch_ResetGame c :
  dispatch c ResetGame
  = {| state := {| board := emptyBoard; xIsNext := true;
                   scores := scores (state c) |};
       winnerDep := None |}.
Proof. unfold dispatch. cbn [updates handle]. by rewrite commit_empty. Qed.

Lemma run_app c es1 es2 : run c (es1 ++ es2) = run (run c es1) es2.
Proof. unfold run. apply foldl_app. Qed.

(** X8: "Reset All" brings the component back to exactly the state it had
    after mounting, effect dependency included, so whatever came before it
    is forgotten; and "Reset Game" twice is "Reset Game" once. *)
Theorem reset_all_forgets c es1 es2 :
  dispatch c ResetAll = initial
  ∧ run c (es1 ++ ResetAll :: es2) = run initial es2
  ∧ dispatch (dispatch c ResetGame) ResetGame = dispatch c ResetGame.
Proof.
  split; [apply dispatch_ResetAll|]. split.
  - by rewrite run_app, run_cons, dispatch_ResetAll.
  - by rewrite !dispatch_ResetGame.
Qed.

Lemma bump_shift s m dx dy :
  bump {| score_X := (score_X s + dx)%N; score_O := (score_O s + dy)%N |} m
  = {| score_X := (score_X (bump s m) + dx)%N;
       score_O := (score_O (bump s m) + dy)%N |}.
Proof. destruct m; unfold bump; simpl; f_equal; lia. Qed.

Lemma commit_shift dx dy c :
  commit (shift_scores dx dy c) = shift_scores dx dy (commit c).
Proof.
  unfold commit, shift_scores. cbn [state board winnerDep].
  destruct (decide _) as [_|_]; [done|].
  destruct (winner (computeWinner (board (state c)))) as [m|]; [|done].
  cbn [scoreEffect state board xIsNext scores winnerDep].
  by rewrite bump_shift.
Qed.

Lemma dispatch_shift dx dy c e :
  e ≠ ResetAll →
  dispatch (shift_scores dx dy c) e = shift_scores dx dy (dispatch c e).
Proof.
  intros He. unfold dispatch.
  assert (updates e (state (shift_scores dx dy c)) = updates e (state c)) as ->.
  { by destruct e. }
  destruct (updates e (state c)) eqn:Eu; [|done].
  rewrite <-commit_shift. f_equal. unfold shift_scores. cbn [state winnerDep].
  f_equal. destruct e as [index| |]; [|done..].
  cbn [handle] in *. apply negb_true_iff in Eu.
  rewrite !click_accepted by done. done.
Qed.

Lemma run_shift dx dy c es :
  Forall (λ e, e ≠ ResetAll) es →
  run (shift_scores dx dy c) es = shift_scores dx dy (run c es).
Proof.
  revert c. induction es as [|e es IH]; intros c Hes; [done|].
  apply Forall_cons in Hes as [He Hes].
  rewrite !run_cons, dispatch_shift by done. by apply IH.
Qed.

(** X9: a round played after "Reset Game" goes exactly like the same
    events played right after mounting: same boards, same turns, same
    winners, and the same points, added to the scores that the reset
    kept. *)
Theorem round_after_reset_game c es :
  Forall (λ e, e ≠ ResetAll) es →
  run (dispatch c ResetGame) es
  = shift_scores (score_X (scores (state c))) (score_O (scores (state c)))
      (run initial es).
Proof.
  intros Hes. rewrite <-run_shift by done. f_equal.
  rewrite dispatch_ResetGame. unfold shift_scores. simpl.
  by destruct (scores (state c)).
Qed.

Lemma round_after_reset_game_witness :
  let c := run initial (Click <$> [0; 3; 1; 4; 2]) in
  run (dispatch c ResetGame) (Click <$> [4; 0; 3; 1; 5])
  = shift_scores (score_X (scores (state c))) (score_O (scores (state c)))
      (run initial (Click <$> [4; 0; 3; 1; 5])).
Proof.
  apply (round_after_reset_game
           (run initial (Click <$> [0; 3; 1; 4; 2])) (Click <$> [4; 0; 3; 1; 5])).
  repeat (apply List.Forall_cons; [discriminate|]). apply List.Forall_nil.
Defined.

(** ** Clicks outside the squares and the outcome *)

Lemma isBoardFull_squares b :
  wf_board b →
  isBoardFull b = true ↔ ∀ k, 0 <= k < 9 → JsArray.get b k ≠ Some null.
Proof.
  intros [Hlen Hsq Hex]. unfold isBoardFull. rewrite every_spec. split.
  - intros H k Hk Hnull. specialize (H k null).
    apply bool_decide_eq_true in H; [done | lia | done].
  - intros H k v Hk Hv. apply bool_decide_eq_true. intros ->.
    destruct (decide (k < 9)); [apply (H k); [lia | done]|].
    apply (Hex k); [lia | done].
Qed.

(** On boards of nine defined squares the outcome reads the nine squares
    only. *)
Lemma outcome_ext b b' :
  wf_board b → wf_board b' →
  (∀ k, 0 <= k < 9 → JsArray.get b' k = JsArray.get b k) →
  computeOutcome b' = computeOutcome b.
Proof.
  intros Hwf Hwf' Hext. unfold computeOutcome, isDraw.
  rewrite (winner_ext b b' Hext).
  assert (isBoardFull b' = isBoardFull b) as ->; [|done].
  pose proof (isBoardFull_squares b Hwf) as H.
  pose proof (isBoardFull_squares b' Hwf') as H'.
  destruct (isBoardFull b) eqn:E, (isBoardFull b') eqn:E'; try done.
  - assert (false = true); [|done]. apply H'. intros k Hk.
    rewrite Hext by done. by apply (proj1 H).
  - assert (false = true); [|done]. apply H. intros k Hk.
    rewrite <-Hext by done. by apply (proj1 H').
Qed.

(** X10: on a board of nine defined squares a click with an index outside
    [0,8] never decides anything: whether it is accepted or not, the winner,
    the winning line and the outcome are what they were. *)
Theorem stray_click_keeps_outcome c index :
  wf_board (board (state c)) → ¬ (0 <= index <= 8) →
  let c' := dispatch c (Click index) in
  computeWinner (board (state c')) = computeWinner (board (state c))
  ∧ computeOutcome (board (state c')) = computeOutcome (board (state c)).
Proof.
  intros Hwf Hi c'.
  assert (∀ k, 0 <= k < 9 →
            JsArray.get (board (state c')) k = JsArray.get (board (state c)) k)
    as Hext.
  { intros k Hk. subst c'. rewrite dispatch_board. simpl.
    apply get_click_other; [apply Hwf | done | lia]. }
  split; [by apply winner_ext|].
  apply outcome_ext; [done | by apply wf_dispatch | done].
Qed.

Lemma stray_click_keeps_outcome_witness :
  let c := run initial (Click <$> [0; 4]) in
  let c' := dispatch c (Click 12) in
  computeWinner (board (state c')) = computeWinner (board (state c))
  ∧ computeOutcome (board (state c')) = computeOutcome (board (state c)).
Proof.
  apply (stray_click_keeps_outcome (run initial (Click <$> [0; 4])) 12).
  - apply reachable_inv. by exists (Click <$> [0; 4]).
  - lia.
Defined.

(** ** The rendered squares *)

Lemma scan_lines_None_line b lines :
  winner (scan_lines lines b) = None → line (scan_lines lines b) = [].
Proof.
  induction lines as [|l rest IH]; [done|].
  rewrite scan_lines_cons. by destruct (line_mark b l).
Qed.

Lemma className_winning b ln k :
  sq_className (renderSquare b ln k) = "square square-winning" ↔ k ∈ ln.
Proof.
  unfold renderSquare. cbn [sq_className].
  destruct (bool_decide (k ∈ ln)) eqn:E.
  - apply bool_decide_eq_true in E. done.
  - apply bool_decide_eq_false in E. split; [discriminate | done].
Qed.

Lemma highlighted_count b l :
  l ∈ WIN_LINES →
  base.length
    (filter (λ sq, sq_className sq = "square square-winning")
            (renderSquare b (line_list l) <$> seqZ 0 9)) = 3%nat.
Proof.
  unfold WIN_LINES. rewrite !elem_of_cons, elem_of_nil.
  intros H. repeat (destruct H as [->|H]; [by vm_compute|]). done.
Qed.

(** X11: on a board without a winner none of the nine rendered squares has
    the class [square-winning]; on a board with a winner exactly three of
    them have it, and each of these shows the winner's mark. *)
Theorem winning_squares_highlighted b :
  match winner (computeWinner b) with
  | None =>
      ∀ sq, sq ∈ renderBoard b → sq_className sq = "square "
  | Some m =>
      base.length
        (filter (λ sq, sq_className sq = "square square-winning")
                (renderBoard b)) = 3%nat
      ∧ ∀ sq, sq ∈ renderBoard b →
              sq_className sq = "square square-winning" →
              sq_children sq = Some (Some m)
  end.
Proof.
  unfold renderBoard.
  destruct (winner (computeWinner b)) as [m|] eqn:Hw.
  - unfold computeWinner in *.
    apply scan_lines_Some in Hw as (i & l & Hl & Hm & -> & _).
    assert (l ∈ WIN_LINES) as Hin by (apply list_elem_of_lookup; eauto).
    split; [by apply highlighted_count|].
    intros sq (k & -> & _)%list_elem_of_fmap Hk%className_winning.
    apply line_mark_spec in Hm as (H1 & H2 & H3).
    unfold line_list in Hk. rewrite !elem_of_cons, elem_of_nil in Hk.
    cbn [renderSquare sq_children].
    destruct Hk as [->|[->|[->|[]]]]; done.
  - unfold computeWinner in *. rewrite scan_lines_None_line by done.
    intros sq (k & -> & _)%list_elem_of_fmap.
    unfold renderSquare. cbn [sq_className].
    rewrite bool_decide_eq_false_2; [done|]. apply not_elem_of_nil.
Qed.

(** X12: the accessible name of a square tells which square it is and what
    it shows: among the nine squares, two names are equal only for the same
    index and the same displayed content, on whatever boards they are
    rendered. *)
Theorem aria_label_identifies_square b ln b' ln' i j :
  0 <= i <= 8 → 0 <= j <= 8 →
  sq_ariaLabel (renderSquare b ln i) = sq_ariaLabel (renderSquare b' ln' j) →
  i = j ∧ shown (JsArray.get b i) = shown (JsArray.get b' j).
Proof.
  intros Hi Hj. unfold renderSquare. cbn [sq_ariaLabel].
  assert (i = 0 ∨ i = 1 ∨ i = 2 ∨ i = 3 ∨ i = 4 ∨ i = 5 ∨ i = 6 ∨ i = 7 ∨ i = 8)
    as Hci by lia.
  assert (j = 0 ∨ j = 1 ∨ j = 2 ∨ j = 3 ∨ j = 4 ∨ j = 5 ∨ j = 6 ∨ j = 7 ∨ j = 8)
    as Hcj by lia.
  clear Hi Hj.
  destruct (JsArray.get b i) as [[[|]|]|], (JsArray.get b' j) as [[[|]|]|];
    destruct Hci as [-> | [-> | [-> | [-> | [-> | [-> | [-> | [-> | ->]]]]]]]];
    destruct Hcj as [-> | [-> | [-> | [-> | [-> | [-> | [-> | [-> | ->]]]]]]]];
    intros H; vm_compute in H; first [ discriminate H | by split ].
Qed.

Lemma aria_label_identifies_square_witness :
  let b := board (state (run initial [Click 4])) in
  4 = 4 ∧ shown (JsArray.get b 4) = shown (JsArray.get b 4).
Proof.
  apply (aria_label_identifies_square
           (board (state (run initial [Click 4]))) []
           (board (state (run initial [Click 4]))) [] 4 4).
  - lia.
  - lia.
  - reflexivity.
Defined.

(** ** The theme *)

Lemma toggleTheme_known t :
  t = "light" ∨ t = "dark" →
  toggleTheme t ≠ t
  ∧ (toggleTheme t = "light" ∨ toggleTheme t = "dark")
  ∧ toggleTheme (toggleTheme t) = t.
Proof.
  intros [-> | ->]; vm_compute; (split; [discriminate|]); split; auto.
Qed.

Lemma page_dispatch_inv p ev : page_inv p → page_inv (page_dispatch p ev).
Proof.
  intros [Hdep Hattr Hth Happ]. destruct ev as [e|]; simpl.
  - destruct (updates e (state (app p))) eqn:Eu; [|done].
    unfold themeEffect. cbn [theme themeDep].
    rewrite decide_True by done.
    split; try done. cbn [app]. by apply dispatch_rendered.
  - destruct (toggleTheme_known _ Hth) as (Hne & Hth' & _).
    unfold themeEffect. cbn [theme themeDep]. rewrite Hdep.
    rewrite decide_False by done.
    split; try done. cbn [app]. apply commit_rendered.
Qed.

Lemma page_dispatch_theme p ev :
  page_inv p →
  theme (page_dispatch p ev)
  = match ev with ToggleTheme => toggleTheme (theme p) | Game _ => theme p end.
Proof.
  intros [Hdep Hattr Hth Happ]. destruct ev as [e|]; simpl.
  - destruct (updates e (state (app p))); [|done].
    unfold themeEffect. by case_decide.
  - unfold themeEffect. by case_decide.
Qed.

Lemma page_dispatch_app p ev :
  page_inv p →
  app (page_dispatch p ev)
  = match ev with ToggleTheme => app p | Game e => dispatch (app p) e end.
Proof.
  intros [Hdep Hattr Hth Happ]. destruct ev as [e|]; simpl.
  - destruct (updates e (state (app p))) eqn:Eu.
    + unfold themeEffect. by case_decide.
    + unfold dispatch. by rewrite Eu.
  - rewrite <-(commit_id (app p)) at 2 by done.
    unfold themeEffect. by case_decide.
Qed.

Lemma page_run_inv p evs :
  page_inv p →
  page_inv (page_run p evs)
  ∧ theme (page_run p evs) = Nat.iter (toggle_count evs) toggleTheme (theme p)
  ∧ app (page_run p evs) = run (app p) (game_events evs).
Proof.
  revert p. induction evs as [|ev evs IH]; intros p Hp; [done|].
  pose proof (page_dispatch_inv p ev Hp) as Hp'.
  destruct (IH _ Hp') as (Hinv & Hth & Happ).
  unfold page_run in *. cbn [foldl]. split; [done|].
  rewrite Hth, Happ, page_dispatch_theme, page_dispatch_app by done.
  destruct ev as [e|]; cbn [toggle_count game_events]; [done|].
  split; [|done]. by rewrite Nat.iter_succ_r.
Qed.

Lemma mounted_inv : page_inv mounted.
Proof. split; simpl; auto. reflexivity. Qed.

Lemma iter_toggle_light n :
  Nat.iter n toggleTheme "light" = if Nat.even n then "light" else "dark".
Proof.
  induction n as [|n IH]; [done|].
  rewrite Nat.even_succ, <-Nat.negb_even. simpl. rewrite IH.
  by destruct (Nat.even n).
Qed.

(** X13: after any events on the mounted page, the [data-theme] attribute
    of the document equals the theme, the theme is "light" after an even
    number of toggles and "dark" after an odd number, and the game is what
    the game events alone would have made it: toggling the theme changes
    neither board, turn nor scores. *)
Theorem theme_toggles evs :
  let p := page_run mounted evs in
  dataTheme p = theme p
  ∧ theme p = (if Nat.even (toggle_count evs) then "light" else "dark")
  ∧ app p = run initial (game_events evs).
Proof.
  intros p. destruct (page_run_inv mounted evs mounted_inv) as (Hinv & Hth & Happ).
  split; [apply Hinv|]. split; [|done].
  subst p. rewrite Hth. apply iter_toggle_light.
Qed.

(** ** Lines and marks *)

(** X14: in every state that the events can produce, X and O never both
    hold a complete line: any two complete lines carry the same mark. *)
Theorem never_two_winners c l1 l2 m1 m2 :
  reachable c → l1 ∈ WIN_LINES → l2 ∈ WIN_LINES →
  line_full (board (state c)) l1 m1 → line_full (board (state c)) l2 m2 →
  m1 = m2.
Proof.
  intros (_ & _ & Hone)%reachable_inv Hl1 Hl2 H1%line_mark_spec H2%line_mark_spec.
  pose proof (Hone l1 m1 Hl1 H1) as Hw1.
  pose proof (Hone l2 m2 Hl2 H2) as Hw2. congruence.
Qed.

Lemma never_two_winners_witness : X = X.
Proof.
  apply (never_two_winners (run initial (Click <$> double_line_game))
           (0, 1, 2) (0, 3, 6) X X).
  - by exists (Click <$> double_line_game).
  - unfold WIN_LINES. rewrite !elem_of_cons. auto.
  - unfold WIN_LINES. rewrite !elem_of_cons. auto 10.
  - by vm_compute.
  - by vm_compute.
Defined.

Lemma win_lines_NoDup l : l ∈ WIN_LINES → NoDup (line_list l).
Proof.
  unfold WIN_LINES. rewrite !elem_of_cons, elem_of_nil.
  intros H.
  repeat (destruct H as [->|H];
          [apply (bool_decide_unpack _); by vm_compute|]).
  done.
Qed.

(** A complete line puts three marks of its owner on the board. *)
Lemma countMark_line b l m :
  l ∈ WIN_LINES → line_full b l m → (3 <= countMark b m)%nat.
Proof.
  intros Hl (H1 & H2 & H3).
  pose proof (win_lines_range l Hl) as (R1 & R2 & R3).
  unfold countMark.
  change 3%nat with (base.length (line_list l)).
  apply submseteq_length, NoDup_submseteq; [by apply win_lines_NoDup|].
  intros k Hk. apply list_elem_of_filter.
  unfold line_list in Hk. rewrite !elem_of_cons, elem_of_nil in Hk.
  unfold strict_eq.
  destruct Hk as [->|[->|[->|?]]]; [..|done];
    (split; [by apply bool_decide_eq_true | apply elem_of_seqZ; lia]).
Qed.

(** X15: through the page no round is won before the fifth accepted move:
    on a won board the winner has at least three marks and at least five
    squares are occupied; when X has won there is one more X than O, and
    when O has won there are as many X as O. *)
Theorem win_needs_five_moves c m ln :
  page_reachable c → computeOutcome (board (state c)) = Won m ln →
  (3 <= countMark (board (state c)) m)%nat
  ∧ (5 <= occupied (board (state c)))%nat
  ∧ countMark (board (state c)) X
    = (countMark (board (state c)) O + match m with X => 1 | O => 0 end)%nat.
Proof.
  intros Hpage Hwon%outcome_won.
  pose proof (page_reachable_reachable c Hpage) as Hreach.
  pose proof (reachable_winner_moved_last c m Hreach Hwon) as Hturn.
  pose proof (page_reachable_balanced c Hpage) as Hbal. unfold balanced in Hbal.
  unfold computeWinner in Hwon.
  apply scan_lines_Some in Hwon as (i & l & Hl & Hm%line_mark_spec & _).
  assert (l ∈ WIN_LINES) as Hin by (apply list_elem_of_lookup; eauto).
  pose proof (countMark_line _ l m Hin Hm) as H3.
  rewrite occupied_marks.
  destruct m, (xIsNext (state c)); try done; simpl in *; lia.
Qed.

Lemma win_needs_five_moves_witness :
  let c := run initial (Click <$> [0; 3; 1; 4; 2]) in
  (3 <= countMark (board (state c)) X)%nat
  ∧ (5 <= occupied (board (state c)))%nat
  ∧ countMark (board (state c)) X = (countMark (board (state c)) O + 1)%nat.
Proof.
  apply (win_needs_five_moves (run initial (Click <$> [0; 3; 1; 4; 2])) X [0; 1; 2]).
  - apply (page_reachable_run (Click <$> [0; 3; 1; 4; 2])). all_in_range.
  - by vm_compute.
Defined.
